(** * VoiceListener: the voice-command dispatcher of smooth-cart-voice

    A shallow embedding of [src/components/VoiceListener.tsx]: the two-tier
    intent dispatcher [handleVoiceCommand], the intent interpreters it routes
    to, the filter-value normalisation and the failure counter.

    Conventions of the embedding.
    - A JavaScript value is a [JsVal]; what [JSON.parse] returns is typed
      [any] in the source, so the interpreters are embedded over every value
      a response can parse to, with the [TypeError]s the source would raise.
    - A JavaScript string is a [string] of code units.
    - The built-ins whose definition belongs to the JavaScript engine
      ([toLowerCase], [trim], [JSON.parse], [parseInt], the coercions) are
      the fields of [JsRuntime]; the theorems hold for every runtime, and
      [ascii_runtime] is the one the examples are run with.
    - A plain object used as a lookup table ([colorMap] and the like) is a
      [gmap] of its own properties, behind which stand the members every
      object inherits from [Object.prototype].
    - The catalog ([products], [filterOptions]) and the prompt templates live
      in files that are not part of the sources; the catalog is a parameter
      and a Gateway request is the name of its template with the
      substitutions made on it.
    - The stores and the router are known by the calls made on them: the
      [effects] of the world, in order.
    - The component's code runs in the monad [M]: a state [World] and an
      outcome that is a returned value or a thrown exception; what was
      written before a [throw] stays written.
    - A state variable of the component is a field of [World], written by
      its setter; the one place that reads a state variable,
      [handleRecovery], reads the value that the render of the running
      closure bound.
    - Of the callbacks of the speech recognition, [onstart] and [onerror]
      are embedded; [startListening], [onresult] and [onend] create and
      start the recognition object and are known here only by the restarts
      they are scheduled for. *)

From Stdlib Require Import ZArith Lia Ascii String.
From stdpp Require Import base option list strings gmap.

Local Open Scope Z_scope.
#[local] Set Warnings "-register-all,-clear-no-such-hyp".

(* ===================================================================== *)
(** ** JavaScript strings *)
(* ===================================================================== *)

(** [s.startsWith(p)] *)
Definition startsWith (s p : string) : bool := String.prefix p s.

(** [s.includes(p)] *)
Fixpoint includes (s p : string) : bool :=
  String.prefix p s ||
  match s with
  | EmptyString => false
  | String _ s' => includes s' p
  end.

(** [s.split(sep)] for a separator of one character. *)
Fixpoint split (sep : ascii) (s : string) : list string :=
  match s with
  | EmptyString => [EmptyString]
  | String c s' =>
      if Ascii.eqb c sep then EmptyString :: split sep s'
      else match split sep s' with
           | w :: ws => String c w :: ws
           | [] => [String c EmptyString]
           end
  end.

(** The character [c] occurs in [s]. *)
Fixpoint has_char (c : ascii) (s : string) : bool :=
  match s with
  | EmptyString => false
  | String d s' => Ascii.eqb d c || has_char c s'
  end.

(** [l.join(sep)] *)
Definition join (sep : string) (l : list string) : string := String.concat sep l.

Fixpoint string_drop (n : nat) (s : string) : string :=
  match n, s with
  | S n', String _ s' => string_drop n' s'
  | _, _ => s
  end.

(** [s.replace(p, "")]: the first occurrence of [p] is removed. *)
Fixpoint remove_first (p s : string) : string :=
  if String.prefix p s then string_drop (String.length p) s
  else match s with
       | EmptyString => EmptyString
       | String c s' => String c (remove_first p s')
       end.

(** The double quote, for the messages that quote the command. *)
Definition dquote : string := String "034"%char EmptyString.
Definition quoted (s : string) : string := dquote +:+ s +:+ dquote.

(* ===================================================================== *)
(** ** JavaScript values *)
(* ===================================================================== *)

Inductive JsVal : Type :=
| JUndefined
| JNull
| JBool (b : bool)
| JNum (z : Z)
| JStr (s : string)
| JArr (elements : list JsVal)
| JObj (fields : list (string * JsVal))
| JNative (name : string).
(** [JNum]: the integral numbers; [JObj]: an object's own properties in the
    order they were written; [JNative n]: the function or object that every
    plain object inherits under the name [n] from [Object.prototype]. *)

(** ToBoolean. *)
Definition truthy (v : JsVal) : bool :=
  match v with
  | JUndefined | JNull => false
  | JBool b => b
  | JNum z => negb (z =? 0)
  | JStr s => negb (String.eqb s "")
  | JArr _ | JObj _ | JNative _ => true
  end.

(** [a || b] *)
Definition js_or (a b : JsVal) : JsVal := if truthy a then a else b.

(** [v === "literal"] *)
Definition is_str (v : JsVal) (lit : string) : bool :=
  match v with
  | JStr s => String.eqb s lit
  | _ => false
  end.

(** [v === true] *)
Definition is_true (v : JsVal) : bool :=
  match v with
  | JBool true => true
  | _ => false
  end.

(** The names [Object.prototype] defines; a plain object answers to each of
    them although it has no such property of its own. *)
Definition objectPrototype : list string :=
  [ "constructor"; "__proto__"; "hasOwnProperty"; "isPrototypeOf";
    "propertyIsEnumerable"; "toLocaleString"; "toString"; "valueOf";
    "__defineGetter__"; "__defineSetter__"; "__lookupGetter__";
    "__lookupSetter__" ].

Definition inherited (k : string) : JsVal :=
  if bool_decide (k ∈ objectPrototype) then JNative k else JUndefined.

(** The own property [k] of an object literal: the last one written. *)
Fixpoint own_property (fields : list (string * JsVal)) (k : string) : option JsVal :=
  match fields with
  | [] => None
  | (k', v) :: rest =>
      match own_property rest k with
      | Some v' => Some v'
      | None => if String.eqb k' k then Some v else None
      end
  end.

(** The engine's part of the language. *)
Class JsRuntime := {
  toLowerCase : string -> string;        (* String.prototype.toLowerCase *)
  trim : string -> string;               (* String.prototype.trim *)
  JSON_parse : string -> option JsVal;   (* JSON.parse; None: SyntaxError *)
  parseInt : JsVal -> option Z;          (* parseInt; None: NaN *)
  toNumber_positive : JsVal -> bool;     (* ToNumber(v) > 0 on what is not a number *)
  toString : JsVal -> string;            (* String(v) on what is not a string *)
}.

(** [v > 0] *)
Definition gt_zero `{JsRuntime} (v : JsVal) : bool :=
  match v with
  | JNum z => 0 <? z
  | JUndefined => false
  | JNull => false
  | JBool b => b
  | _ => toNumber_positive v
  end.

(** [`${v}`] *)
Definition display `{JsRuntime} (v : JsVal) : string :=
  match v with
  | JStr s => s
  | _ => toString v
  end.

(* ===================================================================== *)
(** ** The catalog and the stored profile *)
(* ===================================================================== *)

(** An entry of [products] (from [@/data/products]). *)
Module Product.
Record t := mk {
  id : string;
  name : string;
  description : string;
  sizes : list string;
}.
End Product.

(** [filterOptions] (from [@/data/products]): the canonical values of the six
    filter dimensions. *)
Module FilterOptions.
Record t := mk {
  colors : list string;
  sizes : list string;
  materials : list string;
  genders : list string;
  brands : list string;
  subCategories : list string;
}.
End FilterOptions.

(** [interface UserInfo]. The declared type of every field is [string]; what
    [handleUserInfoUpdate] stores is whatever the classifier answered, so a
    field holds a [JsVal], and one that is not set is [JUndefined]. *)
Module UserInfo.
Record t := mk {
  name : JsVal;
  email : JsVal;
  address : JsVal;
  phone : JsVal;
  cardName : JsVal;
  cardNumber : JsVal;
  expiryDate : JsVal;
  cvv : JsVal;
}.
End UserInfo.

(* ===================================================================== *)
(** ** The Gateway *)
(* ===================================================================== *)

(** The templates of [prompts] (from [@/lib/prompts]). *)
Inductive PromptTemplate : Type :=
| masterIntentClassifier
| userInfoUpdate
| categoryNavigation
| productAction
| cartNavigation
| clearFiltersPrompt
| productDetailNavigation
| filterCommand
| interpretCommandPrompt
| orderCompletion
| navigationCommand
| removeFilterCommand.

(** A rendered prompt: the template and the [.replace(placeholder, value)]
    calls made on it, in order. *)
Record Request := mkRequest {
  template : PromptTemplate;
  substitutions : list (string * string);
}.

(** The text-generation service: what the [n]-th call of the session answers
    to a request; [None] when the call rejects. *)
Definition Gateway : Type := nat -> Request -> option string.

(* ===================================================================== *)
(** ** The world the component runs in *)
(* ===================================================================== *)

(** The controls [handleProductActions] and [handleOrderCompletion] click. *)
Inductive Control : Type :=
| SubmitButton                 (* button[type="submit"] *)
| AddToCartButton              (* button[data-action="add-to-cart"] *)
| ButtonWithText (text : string).

(** The calls the component makes on its collaborators: the router, the
    filter store, the profile store, the product context, the document and
    the speech recognition. *)
Inductive Effect : Type :=
| Navigate (path : string)
| HistoryBack
| UpdateFilters (normalizedFilters : list (string * JsVal))
| ClearFilters
| RemoveFilter (filterType : string) (values : JsVal)
| UpdateUserInfo (info : UserInfo.t)
| UserInfoUpdated (message : string) (updatedFields : list string)
| SetSelectedSize (size : string)
| SetQuantity (quantity : Z)
| Click (control : Control)
| RecognitionStop.

Record World := mkWorld {
  pathname : string;                 (* window.location.pathname *)
  storedUserInfo : UserInfo.t;       (* what getUserInfo() returns *)
  submitButton : bool;               (* the submit control exists *)
  addToCartButton : bool;            (* the add-to-cart control exists *)
  buttonTexts : list string;         (* textContent of the document's buttons *)
  effects : list Effect;             (* oldest first *)
  gatewayCalls : list Request;       (* oldest first *)
  actionLog : list (string * bool);  (* newest first *)
  consecutiveErrors : nat;
  lastAction : string;
  isListening : bool;
  recognitionRef : bool;             (* recognitionRef.current is not null *)
  restartsScheduled : nat;           (* pending setTimeout restarts *)
}.

Definition emit (e : Effect) (w : World) : World :=
  mkWorld (pathname w) (storedUserInfo w) (submitButton w) (addToCartButton w)
    (buttonTexts w) (effects w ++ [e]) (gatewayCalls w) (actionLog w)
    (consecutiveErrors w) (lastAction w) (isListening w) (recognitionRef w)
    (restartsScheduled w).

Definition set_pathname (p : string) (w : World) : World :=
  mkWorld p (storedUserInfo w) (submitButton w) (addToCartButton w)
    (buttonTexts w) (effects w) (gatewayCalls w) (actionLog w)
    (consecutiveErrors w) (lastAction w) (isListening w) (recognitionRef w)
    (restartsScheduled w).

Definition set_storedUserInfo (u : UserInfo.t) (w : World) : World :=
  mkWorld (pathname w) u (submitButton w) (addToCartButton w)
    (buttonTexts w) (effects w) (gatewayCalls w) (actionLog w)
    (consecutiveErrors w) (lastAction w) (isListening w) (recognitionRef w)
    (restartsScheduled w).

Definition record_call (r : Request) (w : World) : World :=
  mkWorld (pathname w) (storedUserInfo w) (submitButton w) (addToCartButton w)
    (buttonTexts w) (effects w) (gatewayCalls w ++ [r]) (actionLog w)
    (consecutiveErrors w) (lastAction w) (isListening w) (recognitionRef w)
    (restartsScheduled w).

Definition set_lastAction (s : string) (w : World) : World :=
  mkWorld (pathname w) (storedUserInfo w) (submitButton w) (addToCartButton w)
    (buttonTexts w) (effects w) (gatewayCalls w) (actionLog w)
    (consecutiveErrors w) s (isListening w) (recognitionRef w)
    (restartsScheduled w).

Definition set_log (log : list (string * bool)) (n : nat) (w : World) : World :=
  mkWorld (pathname w) (storedUserInfo w) (submitButton w) (addToCartButton w)
    (buttonTexts w) (effects w) (gatewayCalls w) log
    n (lastAction w) (isListening w) (recognitionRef w)
    (restartsScheduled w).

Definition set_recognition (errors : nat) (listening ref : bool) (restarts : nat)
    (w : World) : World :=
  mkWorld (pathname w) (storedUserInfo w) (submitButton w) (addToCartButton w)
    (buttonTexts w) (effects w) (gatewayCalls w) (actionLog w)
    errors (lastAction w) listening ref restarts.

(** What the collaborators hold: where the router is, the stored profile and
    every call made on a collaborator. *)
Definition external (w : World) : string * UserInfo.t * list Effect :=
  (pathname w, storedUserInfo w, effects w).

(* ===================================================================== *)
(** ** The monad of the component's code *)
(* ===================================================================== *)

Inductive Outcome (A : Type) : Type :=
| Returned (a : A)
| Thrown.
Arguments Returned {A} a.
Arguments Thrown {A}.

Definition M (A : Type) : Type := World -> Outcome A * World.

Definition ret {A} (a : A) : M A := fun w => (Returned a, w).

Definition bind {A B} (m : M A) (k : A -> M B) : M B :=
  fun w =>
    match m w with
    | (Returned a, w') => k a w'
    | (Thrown, w') => (Thrown, w')
    end.

Definition throw {A} : M A := fun w => (Thrown, w).

(** [try { body } catch (error) { handler }] *)
Definition try_catch {A} (body handler : M A) : M A :=
  fun w =>
    match body w with
    | (Returned a, w') => (Returned a, w')
    | (Thrown, w') => handler w'
    end.

(** A statement that only writes the world. *)
Definition modify (f : World -> World) : M unit := fun w => (Returned tt, f w).

(** A read of the world. *)
Definition gets {A} (f : World -> A) : M A := fun w => (Returned (f w), w).

Declare Scope js_scope.
Delimit Scope js_scope with js.
Notation "x <- m ;; k" := (bind m (fun x => k))
  (at level 100, m at next level, right associativity) : js_scope.
Notation "m ;; k" := (bind m (fun _ => k))
  (at level 100, right associativity) : js_scope.
Local Open Scope js_scope.

(** [l.map(f)] where [f] may throw: left to right, stopping at the throw. *)
Fixpoint mapM {A B} (f : A -> M B) (l : list A) : M (list B) :=
  match l with
  | [] => ret []
  | a :: l' => b <- f a ;; bs <- mapM f l' ;; ret (b :: bs)
  end.

(** [l.find(f)] where [f] may throw. *)
Fixpoint findM {A} (f : A -> M bool) (l : list A) : M (option A) :=
  match l with
  | [] => ret None
  | a :: l' => b <- f a ;; if b then ret (Some a) else findM f l'
  end.

(* ===================================================================== *)
(** ** The component *)
(* ===================================================================== *)

(** The six list-valued filter dimensions of [FilterState]. *)
Inductive Dimension : Type :=
| Colors | Sizes | Materials | Genders | Brands | SubCategories.

Definition dimensions : list Dimension :=
  [Colors; Sizes; Materials; Genders; Brands; SubCategories].

(** The property name of a dimension, in the classifier's answer and in
    [FilterState]. *)
Definition key (d : Dimension) : string :=
  match d with
  | Colors => "colors"
  | Sizes => "sizes"
  | Materials => "materials"
  | Genders => "genders"
  | Brands => "brands"
  | SubCategories => "subCategories"
  end.

(** The placeholder of a dimension in the two filter prompts. *)
Definition placeholder (d : Dimension) : string :=
  match d with
  | Colors => "{colors}"
  | Sizes => "{sizes}"
  | Materials => "{materials}"
  | Genders => "{genders}"
  | Brands => "{brands}"
  | SubCategories => "{categories}"
  end.

(** [const availableFunctions]: name and description. *)
Definition availableFunctions : list (string * string) :=
  [ ("showGymClothes",
     "Execute this function if the user is interested in gym clothes or any related activities or equipment associated with the gym only.");
    ("showYogaEquipment",
     "Execute this function if the user is interested in any yoga activities or asks about yoga in general.");
    ("navigateToCategory",
     "Navigate to a specific product category (gym, yoga, or running/jogging)");
    ("goToCart", "Navigate to shopping cart");
    ("checkout", "Start checkout process");
    ("showRunningGear",
     "Execute this function if the user is interested in running, jogging, or any running-related activities or equipment");
    ("applyFilters",
     "Apply filters to the product listing page, such as colors, sizes, price ranges, brands, etc.");
    ("clearFilters", "Clear all applied filters on the product listing page") ].

(** [clearFilterPhrases] of [interpretCommand]. *)
Definition clearFilterPhrases : list string :=
  [ "clear filter"; "reset filter"; "remove filter"; "clear all filter";
    "reset all filter"; "remove all filter"; "clear the filter"; "start over" ].

Definition newline : string := String "010"%char EmptyString.

(** [a && b] *)
Definition js_and (a b : JsVal) : JsVal := if truthy a then b else a.

(** [response.replace("```json", "").replace("```", "")] *)
Definition stripFences (response : string) : string :=
  remove_first "```" (remove_first "```json" response).

Section VoiceListener.

Context `{rt : JsRuntime}.
Variable products : list Product.t.
Variable filterOptions : FilterOptions.t.
Variable gateway : Gateway.

(** *** Reading JavaScript values *)

(** [v.k] for a property name [k]; a [TypeError] on [undefined] and [null].
    [JSON.parse] never returns a [JNative]. *)
Definition get_prop (v : JsVal) (k : string) : M JsVal :=
  match v with
  | JUndefined | JNull => throw
  | JObj fields =>
      ret (match own_property fields k with
           | Some x => x
           | None => inherited k
           end)
  | JArr l =>
      ret (if String.eqb k "length" then JNum (Z.of_nat (length l)) else inherited k)
  | JStr s =>
      ret (if String.eqb k "length" then JNum (Z.of_nat (String.length s))
           else inherited k)
  | JBool _ | JNum _ | JNative _ => ret (inherited k)
  end.

(** [v.toLowerCase()]: only a string has the method. *)
Definition call_toLowerCase (v : JsVal) : M string :=
  match v with
  | JStr s => ret (toLowerCase s)
  | _ => throw
  end.

(** [v.map(f)]: only an array has the method. *)
Definition call_map (v : JsVal) (f : JsVal -> M JsVal) : M JsVal :=
  match v with
  | JArr l => l' <- mapM f l ;; ret (JArr l')
  | _ => throw
  end.

(** [JSON.parse(text)] *)
Definition parse (text : string) : M JsVal :=
  match JSON_parse text with
  | Some v => ret v
  | None => throw
  end.

(** *** The collaborators *)

(** [await model.generateContent(prompt)] and [result.response.text()]. *)
Definition generateContent (t : PromptTemplate) (subst : list (string * string)) : M string :=
  fun w =>
    let request := mkRequest t subst in
    match gateway (length (gatewayCalls w)) request with
    | Some text => (Returned text, record_call request w)
    | None => (Thrown, record_call request w)
    end.

Definition navigate (path : string) : M unit :=
  modify (fun w => set_pathname path (emit (Navigate path) w)).

Definition historyBack : M unit := modify (emit HistoryBack).
Definition updateFilters (f : list (string * JsVal)) : M unit := modify (emit (UpdateFilters f)).
Definition clearFilters : M unit := modify (emit ClearFilters).
Definition removeFilter (filterType : string) (values : JsVal) : M unit :=
  modify (emit (RemoveFilter filterType values)).
Definition getUserInfo : M UserInfo.t := gets storedUserInfo.
Definition updateUserInfo (u : UserInfo.t) : M unit :=
  modify (fun w => set_storedUserInfo u (emit (UpdateUserInfo u) w)).
Definition dispatchUserInfoUpdated (message : string) (fields : list string) : M unit :=
  modify (emit (UserInfoUpdated message fields)).
Definition setSelectedSize (s : string) : M unit := modify (emit (SetSelectedSize s)).
Definition setQuantity (n : Z) : M unit := modify (emit (SetQuantity n)).
Definition click (c : Control) : M unit := modify (emit (Click c)).
Definition setLastAction (s : string) : M unit := modify (set_lastAction s).

(** *** logAction / handleRecovery *)

(** [logAction(action, success = true)] *)
Definition logAction (action : string) (success : bool) : M unit :=
  modify (fun w =>
    set_log ((action, success) :: take 19 (actionLog w))
            (if success then O else S (consecutiveErrors w)) w).

(** The value of the state variable [consecutiveErrors] in the render whose
    closures are running. The setters write the state, which is the field of
    [World]; [handleRecovery] reads the constant its render bound. *)
Variable renderedErrors : nat.

Definition handleRecovery : M unit :=
  fun w =>
    if (3 <=? renderedErrors)%nat then
      let w1 := if recognitionRef w then emit RecognitionStop w else w in
      (Returned tt, set_recognition O false false (S (restartsScheduled w1)) w1)
    else (Returned tt, w).

(** *** classifyPrimaryIntent *)

Definition classifyPrimaryIntent (transcript : string) : M string :=
  try_catch
    (text <- generateContent masterIntentClassifier [("{transcript}", transcript)] ;;
     ret (trim text))
    (ret "general_command").

(** *** handleUserInfoUpdate *)

(** The eight assignments of [handleUserInfoUpdate], in order: the property
    read from the response, the label pushed on [updatedFields] and the field
    of [updatedInfo] that is assigned. *)
Definition userInfoFields : list (string * string * (JsVal -> UserInfo.t -> UserInfo.t)) :=
  [ ("name", "name", fun v u =>
       UserInfo.mk v (UserInfo.email u) (UserInfo.address u) (UserInfo.phone u)
         (UserInfo.cardName u) (UserInfo.cardNumber u) (UserInfo.expiryDate u) (UserInfo.cvv u));
    ("email", "email", fun v u =>
       UserInfo.mk (UserInfo.name u) v (UserInfo.address u) (UserInfo.phone u)
         (UserInfo.cardName u) (UserInfo.cardNumber u) (UserInfo.expiryDate u) (UserInfo.cvv u));
    ("address", "address", fun v u =>
       UserInfo.mk (UserInfo.name u) (UserInfo.email u) v (UserInfo.phone u)
         (UserInfo.cardName u) (UserInfo.cardNumber u) (UserInfo.expiryDate u) (UserInfo.cvv u));
    ("phone", "phone", fun v u =>
       UserInfo.mk (UserInfo.name u) (UserInfo.email u) (UserInfo.address u) v
         (UserInfo.cardName u) (UserInfo.cardNumber u) (UserInfo.expiryDate u) (UserInfo.cvv u));
    ("cardName", "card name", fun v u =>
       UserInfo.mk (UserInfo.name u) (UserInfo.email u) (UserInfo.address u) (UserInfo.phone u)
         v (UserInfo.cardNumber u) (UserInfo.expiryDate u) (UserInfo.cvv u));
    ("cardNumber", "card number", fun v u =>
       UserInfo.mk (UserInfo.name u) (UserInfo.email u) (UserInfo.address u) (UserInfo.phone u)
         (UserInfo.cardName u) v (UserInfo.expiryDate u) (UserInfo.cvv u));
    ("expiryDate", "card expiry date", fun v u =>
       UserInfo.mk (UserInfo.name u) (UserInfo.email u) (UserInfo.address u) (UserInfo.phone u)
         (UserInfo.cardName u) (UserInfo.cardNumber u) v (UserInfo.cvv u));
    ("cvv", "CVV", fun v u =>
       UserInfo.mk (UserInfo.name u) (UserInfo.email u) (UserInfo.address u) (UserInfo.phone u)
         (UserInfo.cardName u) (UserInfo.cardNumber u) (UserInfo.expiryDate u) v) ].

(** [if (response.k) { updatedInfo.f = response.k; updatedFields.push(label) }]
    for each entry of the table. *)
Fixpoint mergeFields (response : JsVal)
    (table : list (string * string * (JsVal -> UserInfo.t -> UserInfo.t)))
    (updatedInfo : UserInfo.t) (updatedFields : list string)
    : M (UserInfo.t * list string) :=
  match table with
  | [] => ret (updatedInfo, updatedFields)
  | (k, label, assign) :: rest =>
      v <- get_prop response k ;;
      if truthy v
      then mergeFields response rest (assign v updatedInfo) (updatedFields ++ [label])
      else mergeFields response rest updatedInfo updatedFields
  end.

Definition handleUserInfoUpdate (transcript : string) : M bool :=
  try_catch
    (responseText <- generateContent userInfoUpdate [("{transcript}", transcript)] ;;
     let cleanedResponse := stripFences responseText in
     try_catch
       (response <- parse cleanedResponse ;;
        isUpdate <- get_prop response "isUserInfoUpdate" ;;
        if truthy isUpdate then
          currentInfo <- getUserInfo ;;
          merged <- mergeFields response userInfoFields currentInfo [] ;;
          let '(updatedInfo, updatedFields) := merged in
          match updatedFields with
          | [] => ret false
          | _ :: _ =>
              updateUserInfo updatedInfo ;;
              let feedbackMessage := "Updated your " +:+ join ", " updatedFields in
              dispatchUserInfoUpdated feedbackMessage updatedFields ;;
              setLastAction feedbackMessage ;;
              ret true
          end
        else ret false)
       (ret false))
    (ret false).

(** *** handleCategoryNavigation *)

Definition handleCategoryNavigation (transcript : string) : M bool :=
  try_catch
    (text <- generateContent categoryNavigation [("{transcript}", transcript)] ;;
     let response := toLowerCase (trim text) in
     if String.eqb response "gym" then navigate "/products/gym" ;; ret true
     else if String.eqb response "yoga" then navigate "/products/yoga" ;; ret true
     else if String.eqb response "running" then navigate "/products/jogging" ;; ret true
     else ret false)
    (ret false).

(** *** handleProductActions *)

(** The fallback of the add-to-cart action: the first button whose text
    contains "add to cart" is clicked. *)
Definition clickAddToCartByText : M unit :=
  texts <- gets buttonTexts ;;
  match find (fun text => includes (toLowerCase text) "add to cart") texts with
  | Some text => click (ButtonWithText text)
  | None => ret tt
  end.

Definition handleProductActions (transcript : string) : M bool :=
  try_catch
    (currentPath <- gets pathname ;;
     if negb (startsWith currentPath "/product/") then ret false
     else
       let productId := last (split "/" currentPath) in
       match find (fun p => bool_decide (Some (Product.id p) = productId)) products with
       | None => ret false
       | Some product =>
           response <- generateContent productAction
             [ ("{productName}", Product.name product);
               ("{sizes}", join ", " (Product.sizes product));
               ("{transcript}", transcript) ] ;;
           let cleanedResponse := stripFences response in
           try_catch
             (parsedAction <- parse (trim cleanedResponse) ;;
              action <- get_prop parsedAction "action" ;;
              if is_str action "none" then ret false
              else
                size <- get_prop parsedAction "size" ;;
                sized <-
                  (if is_str action "size" && truthy size then
                     matchedSize <-
                       findM (fun s =>
                                wanted <- call_toLowerCase size ;;
                                ret (String.eqb (toLowerCase s) wanted))
                             (Product.sizes product) ;;
                     match matchedSize with
                     | Some s =>
                         if truthy (JStr s)
                         then setSelectedSize s ;; ret true
                         else ret false
                     | None => ret false
                     end
                   else ret false) ;;
                if sized : bool then ret true
                else
                  quantity <- get_prop parsedAction "quantity" ;;
                  counted <-
                    (if is_str action "quantity" && truthy quantity then
                       match parseInt quantity with
                       | Some newQuantity =>
                           if 0 <? newQuantity
                           then setQuantity newQuantity ;; ret true
                           else ret false
                       | None => ret false
                       end
                     else ret false) ;;
                  if counted : bool then ret true
                  else
                    (if is_str action "addToCart" then
                       hasButton <- gets addToCartButton ;;
                       if hasButton : bool then click AddToCartButton
                       else clickAddToCartByText
                     else ret tt) ;;
                    ret true)
             (ret false)
       end)
    (ret false).

(** *** handleCartNavigation *)

Definition handleCartNavigation (transcript : string) : M bool :=
  try_catch
    (text <- generateContent cartNavigation [("{transcript}", transcript)] ;;
     let response := toLowerCase (trim text) in
     if String.eqb response "yes" then navigate "/cart" ;; ret true
     else ret false)
    (ret false).

(** *** handleClearFilters *)

Definition handleClearFilters (transcript : string) : M bool :=
  try_catch
    (text <- generateContent clearFiltersPrompt [("{transcript}", transcript)] ;;
     let response := toLowerCase (trim text) in
     if String.eqb response "yes" then clearFilters ;; ret true
     else ret false)
    (ret false).

(** *** handleProductDetailNavigation *)

(** [products.find((p) => p.name.toLowerCase() === productName)] *)
Definition exactMatch (productName : string) : option Product.t :=
  find (fun p => String.eqb (toLowerCase (Product.name p)) productName) products.

(** [products.find((p) => p.name.toLowerCase().includes(productName) ||
    productName.includes(p.name.toLowerCase()))] *)
Definition partialMatch (productName : string) : option Product.t :=
  find (fun p => includes (toLowerCase (Product.name p)) productName
                 || includes productName (toLowerCase (Product.name p)))
       products.

(** [productName.split(" ").filter((w) => w.length > 3)] *)
Definition keywords (productName : string) : list string :=
  filter (fun w => (3 < String.length w)%nat) (split " " productName).

(** The loop over [words]: the first word that some product's name contains
    decides, and the first such product is taken. *)
Fixpoint keywordMatch (words : list string) : option Product.t :=
  match words with
  | [] => None
  | word :: rest =>
      match find (fun p => includes (toLowerCase (Product.name p)) word) products with
      | Some p => Some p
      | None => keywordMatch rest
      end
  end.

(** The three lookups of [matchedProduct], each tried when the one before
    found nothing. *)
Definition resolveProduct (productName : string) : option Product.t :=
  match exactMatch productName with
  | Some p => Some p
  | None =>
      match partialMatch productName with
      | Some p => Some p
      | None => keywordMatch (keywords productName)
      end
  end.

Definition productListText : string :=
  join newline
    (map (fun p => "- " +:+ Product.name p +:+ ": "
                   +:+ String.substring 0 50 (Product.description p) +:+ "...")
         products).

Definition handleProductDetailNavigation (transcript : string) : M bool :=
  try_catch
    (text <- generateContent productDetailNavigation
       [("{transcript}", transcript); ("{productList}", productListText)] ;;
     let response := trim text in
     if negb (String.eqb (toLowerCase response) "none") then
       let productName := toLowerCase response in
       match resolveProduct productName with
       | Some matchedProduct =>
           navigate ("/product/" +:+ Product.id matchedProduct) ;; ret true
       | None => ret false
       end
     else ret false)
    (ret false).

(** *** The reference maps of the filter interpreters *)

(** [filterOptions.<dimension>] *)
Definition canonical (d : Dimension) : list string :=
  match d with
  | Colors => FilterOptions.colors filterOptions
  | Sizes => FilterOptions.sizes filterOptions
  | Materials => FilterOptions.materials filterOptions
  | Genders => FilterOptions.genders filterOptions
  | Brands => FilterOptions.brands filterOptions
  | SubCategories => FilterOptions.subCategories filterOptions
  end.

(** [Object.fromEntries(values.map((c) => [c.toLowerCase(), c]))]: the own
    properties of the map; a later entry replaces an earlier one with the
    same key. *)
Definition fromEntries (values : list string) : gmap string string :=
  foldl (fun m c => <[toLowerCase c := c]> m) ∅ values.

(** [colorMap], [sizeMap], [materialMap], [genderMap], [brandMap] and
    [categoryMap]. *)
Definition referenceMap (d : Dimension) : gmap string string :=
  fromEntries (canonical d).

(** [map[k]] on such a plain object: its own property, or else what
    [Object.prototype] has under that name. *)
Definition map_get (m : gmap string string) (k : string) : JsVal :=
  match m !! k with
  | Some c => JStr c
  | None => inherited k
  end.

(** [(c) => colorMap[c.toLowerCase()] || c], the callback of
    [interpretFilterCommand] for the dimension [d]. *)
Definition restoreCasing (d : Dimension) (c : JsVal) : M JsVal :=
  k <- call_toLowerCase c ;;
  ret (js_or (map_get (referenceMap d) k) c).

(** [values && values.length > 0] *)
Definition nonEmpty (values : JsVal) : M bool :=
  if truthy values
  then len <- get_prop values "length" ;; ret (gt_zero len)
  else ret false.

(** The substitutions of the two filter prompts. *)
Definition filterSubstitutions (transcript : string) : list (string * string) :=
  ("{transcript}", transcript)
  :: map (fun d => (placeholder d, join ", " (canonical d))) dimensions.

(** *** interpretFilterCommand *)

(** [if (parsedFilters.d && parsedFilters.d.length > 0)
       normalizedFilters.d = parsedFilters.d.map(...)] *)
Definition normalizeDimension (parsedFilters : JsVal)
    (normalizedFilters : list (string * JsVal)) (d : Dimension)
    : M (list (string * JsVal)) :=
  values <- get_prop parsedFilters (key d) ;;
  present <- nonEmpty values ;;
  if present : bool then
    normalized <- call_map values (restoreCasing d) ;;
    ret (normalizedFilters ++ [(key d, normalized)])
  else ret normalizedFilters.

Fixpoint foldM {A B} (f : A -> B -> M A) (a : A) (l : list B) : M A :=
  match l with
  | [] => ret a
  | b :: l' => a' <- f a b ;; foldM f a' l'
  end.

Definition interpretFilterCommand (transcript : string) : M string :=
  try_catch
    (response <- generateContent filterCommand (filterSubstitutions transcript) ;;
     let cleanedResponse := stripFences response in
     early <-
       try_catch
         (parsedFilters <- parse (trim cleanedResponse) ;;
          lists <- foldM (normalizeDimension parsedFilters) [] dimensions ;;
          price <- get_prop parsedFilters "price" ;;
          let normalizedFilters :=
            if truthy price then lists ++ [("price", price)] else lists in
          match normalizedFilters with
          | _ :: _ => updateFilters normalizedFilters ;; ret (Some "filters_updated")
          | [] => ret None
          end)
         (ret None) ;;
     match early with
     | Some result => ret result
     | None => ret "unknown"
     end)
    (ret "unknown").

(** *** interpretCommand *)

Definition availableFunctionsText : string :=
  join newline (map (fun fn => "- " +:+ fst fn +:+ ": " +:+ snd fn) availableFunctions).

Definition interpretCommand (transcript : string) : M string :=
  try_catch
    (if existsb (fun phrase => includes transcript phrase) clearFilterPhrases
     then ret "clearFilters"
     else
       text <- generateContent interpretCommandPrompt
         [("{transcript}", transcript); ("{availableFunctions}", availableFunctionsText)] ;;
       ret (trim text))
    (ret "unknown").

(** *** handleOrderCompletion *)

(** [userInfo.cardNumber && userInfo.expiryDate && userInfo.cvv &&
    userInfo.name && userInfo.email && userInfo.address] *)
Definition hasRequiredInfo (userInfo : UserInfo.t) : JsVal :=
  js_and (js_and (js_and (js_and (js_and
    (UserInfo.cardNumber userInfo) (UserInfo.expiryDate userInfo))
    (UserInfo.cvv userInfo)) (UserInfo.name userInfo))
    (UserInfo.email userInfo)) (UserInfo.address userInfo).

(** The submit of the payment form: the submit control is clicked, and the
    confirmation page is navigated to when there is none. *)
Definition submitOrder : M unit :=
  setLastAction "Completing your order..." ;;
  hasButton <- gets submitButton ;;
  if hasButton : bool then click SubmitButton else navigate "/confirmation".

Definition handleOrderCompletion (transcript : string) : M bool :=
  try_catch
    (text <- generateContent orderCompletion [("{transcript}", transcript)] ;;
     let response := toLowerCase (trim text) in
     if String.eqb response "yes" then
       currentPath <- gets pathname ;;
       let isOnPaymentPage := String.eqb currentPath "/payment" in
       completed <-
         (if isOnPaymentPage then
            userInfo <- getUserInfo ;;
            if truthy (hasRequiredInfo userInfo)
            then submitOrder ;; ret true
            else ret false
          else ret false) ;;
       if completed : bool then ret true
       else
         setLastAction "Taking you to complete your payment..." ;;
         navigate "/payment" ;;
         ret true
     else ret false)
    (ret false).

(** *** handleNavigationCommand *)

Definition handleNavigationCommand (transcript : string) : M bool :=
  try_catch
    (responseText <- generateContent navigationCommand [("{transcript}", transcript)] ;;
     let cleanedResponse := stripFences responseText in
     try_catch
       (response <- parse (trim cleanedResponse) ;;
        action <- get_prop response "action" ;;
        if is_str action "back" then
          setLastAction "Going back to previous page" ;; historyBack ;; ret true
        else if is_str action "home" then
          setLastAction "Taking you to the home page" ;; navigate "/" ;; ret true
        else ret false)
       (ret false))
    (ret false).

(** *** handleRemoveFilters *)

(** [(val) => colorMap[val.toLowerCase()]], the [mappingFn] passed for the
    dimension [d]. *)
Definition mappingFn (d : Dimension) (val : JsVal) : M JsVal :=
  k <- call_toLowerCase val ;;
  ret (map_get (referenceMap d) k).

Definition elements_of (v : JsVal) : list JsVal :=
  match v with
  | JArr l => l
  | _ => []
  end.

(** [processFilterRemoval(filterType, valuesToRemove, mappingFn)]; the pair
    is [filtersRemoved] and [removedFilters]. *)
Definition processFilterRemoval (filterType : string) (valuesToRemove : JsVal)
    (mapping : JsVal -> M JsVal) (tracked : bool * list string)
    : M (bool * list string) :=
  present <- nonEmpty valuesToRemove ;;
  if present : bool then
    normalizedValues <-
      call_map valuesToRemove (fun val => mapped <- mapping val ;; ret (js_or mapped val)) ;;
    let removedFilters :=
      snd tracked
      ++ map (fun val => filterType +:+ ": " +:+ display val) (elements_of normalizedValues) in
    removeFilter filterType normalizedValues ;;
    ret (true, removedFilters)
  else ret tracked.

(** The six calls of [processFilterRemoval], one per dimension. *)
Definition removeDimension (parsedRemoval : JsVal) (tracked : bool * list string)
    (d : Dimension) : M (bool * list string) :=
  values <- get_prop parsedRemoval (key d) ;;
  processFilterRemoval (key d) values (mappingFn d) tracked.

Definition handleRemoveFilters (transcript : string) : M bool :=
  try_catch
    (responseText <- generateContent removeFilterCommand (filterSubstitutions transcript) ;;
     let cleanedResponse := stripFences responseText in
     try_catch
       (parsedRemoval <- parse (trim cleanedResponse) ;;
        isRemoveFilter <- get_prop parsedRemoval "isRemoveFilter" ;;
        if negb (truthy isRemoveFilter) then ret false
        else
          tracked <- foldM (removeDimension parsedRemoval) (false, []) dimensions ;;
          price <- get_prop parsedRemoval "price" ;;
          tracked' <-
            (if is_true price then
               removeFilter "price" JNull ;;
               ret (true, snd tracked ++ ["price range"])
             else ret tracked) ;;
          if fst tracked' : bool then
            setLastAction ("Removed " +:+ join ", " (snd tracked')) ;;
            ret true
          else ret false)
       (ret false))
    (ret false).

(** *** handleVoiceCommand *)

(** The [checkout] case of the general commands. *)
Definition generalCheckout : M unit :=
  currentPath <- gets pathname ;;
  let isOnPaymentPage := String.eqb currentPath "/payment" in
  if isOnPaymentPage then
    userInfo <- getUserInfo ;;
    if truthy (hasRequiredInfo userInfo)
    then submitOrder
    else setLastAction "Please complete your payment information"
  else
    setLastAction "Navigating to checkout" ;;
    navigate "/payment".

(** [switch (action)] of the [general_command] case; the result is
    [handled]. *)
Definition generalCommand (action : string) : M bool :=
  if String.eqb action "showGymClothes" then
    setLastAction "Navigating to gym products" ;; navigate "/products/gym" ;; ret true
  else if String.eqb action "showYogaEquipment" then
    setLastAction "Navigating to yoga products" ;; navigate "/products/yoga" ;; ret true
  else if String.eqb action "goToCart" then
    setLastAction "Navigating to cart" ;; navigate "/cart" ;; ret true
  else if String.eqb action "checkout" then
    generalCheckout ;; ret true
  else if String.eqb action "showRunningGear" then
    setLastAction "Navigating to running products" ;; navigate "/products/jogging" ;; ret true
  else if String.eqb action "clearFilters" then
    clearFilters ;; setLastAction "All filters cleared" ;; ret true
  else ret false.

(** [switch (primaryIntent)]; the result is [handled]. *)
Definition routeIntent (primaryIntent command : string) : M bool :=
  if String.eqb primaryIntent "navigation" then handleNavigationCommand command
  else if String.eqb primaryIntent "order_completion" then handleOrderCompletion command
  else if String.eqb primaryIntent "user_info" then handleUserInfoUpdate command
  else if String.eqb primaryIntent "cart" then
    handled <- handleCartNavigation command ;;
    (if handled : bool then setLastAction ("Navigating to cart: " +:+ quoted command)
     else ret tt) ;;
    ret handled
  else if String.eqb primaryIntent "product_action" then
    handled <- handleProductActions command ;;
    (if handled : bool then setLastAction ("Product action completed: " +:+ quoted command)
     else ret tt) ;;
    ret handled
  else if String.eqb primaryIntent "product_navigation" then
    handled <- handleProductDetailNavigation command ;;
    (if handled : bool then setLastAction ("Navigating to product: " +:+ quoted command)
     else ret tt) ;;
    ret handled
  else if String.eqb primaryIntent "remove_filter" then handleRemoveFilters command
  else if String.eqb primaryIntent "category_navigation" then
    categoryNavigated <- handleCategoryNavigation command ;;
    if categoryNavigated : bool then
      setLastAction ("Navigating to category based on: " +:+ quoted command) ;;
      filtersApplied <- interpretFilterCommand command ;;
      (if String.eqb filtersApplied "filters_updated" then
         setLastAction ("Navigated to category and applied filters based on: "
                        +:+ quoted command)
       else ret tt) ;;
      ret true
    else ret false
  else if String.eqb primaryIntent "apply_filter" then
    filterResult <- interpretFilterCommand command ;;
    if String.eqb filterResult "filters_updated" then
      setLastAction ("Filters updated based on: " +:+ quoted command) ;; ret true
    else ret false
  else if String.eqb primaryIntent "clear_filters" then
    clearFilters ;;
    setLastAction ("All filters cleared based on: " +:+ quoted command) ;;
    ret true
  else if String.eqb primaryIntent "general_command" then
    action <- interpretCommand command ;;
    generalCommand action
  else ret false.

Definition handleVoiceCommand (command : string) : M unit :=
  logAction ("Processing command: " +:+ quoted command) true ;;
  setLastAction ("Processing: " +:+ quoted command) ;;
  try_catch
    (primaryIntent <- classifyPrimaryIntent command ;;
     logAction ("Identified primary intent: " +:+ primaryIntent) true ;;
     handled <- routeIntent primaryIntent command ;;
     if handled : bool then
       logAction ("Successfully handled " +:+ quoted command
                  +:+ " (" +:+ primaryIntent +:+ ")") true
     else
       setLastAction ("Command not recognized: " +:+ quoted command) ;;
       logAction ("No handler processed: " +:+ quoted command) false)
    (setLastAction ("Error processing: " +:+ quoted command) ;;
     logAction ("Error processing: " +:+ quoted command) false ;;
     handleRecovery).

End VoiceListener.

(** *** The callbacks of the recognition *)

(** [recognitionRef.current.onstart] *)
Definition onstart : M unit :=
  modify (fun w =>
    set_recognition (consecutiveErrors w) true (recognitionRef w) (restartsScheduled w) w) ;;
  logAction "Voice recognition started" true.

(** [recognitionRef.current.onerror], with [event.error]: every error is
    logged as a failure; any but "aborted" drops the recognition and
    schedules a restart. *)
Definition onerror (error : string) : M unit :=
  logAction ("Recognition error: " +:+ error) false ;;
  if negb (String.eqb error "aborted") then
    modify (fun w =>
      set_recognition (consecutiveErrors w) false false (S (restartsScheduled w)) w)
  else ret tt.

(* ===================================================================== *)
(** ** A runtime to run the component with *)
(* ===================================================================== *)

(** The built-ins on the fragment the examples need: ASCII text, and JSON
    with objects, arrays, strings without escapes, integers, [true], [false]
    and [null]. *)
Module Ascii_runtime.

Definition lower_char (c : ascii) : ascii :=
  let n := nat_of_ascii c in
  if ((65 <=? n) && (n <=? 90))%nat then ascii_of_nat (n + 32) else c.

Fixpoint toLowerCase (s : string) : string :=
  match s with
  | EmptyString => EmptyString
  | String c s' => String (lower_char c) (toLowerCase s')
  end.

Definition is_space (c : ascii) : bool :=
  let n := nat_of_ascii c in
  ((n =? 32) || (n =? 9) || (n =? 10) || (n =? 13))%nat.

Fixpoint skip_space (s : string) : string :=
  match s with
  | String c s' => if is_space c then skip_space s' else s
  | EmptyString => EmptyString
  end.

(** The string without the white space at its end. *)
Fixpoint trim_end (s : string) : string :=
  match s with
  | EmptyString => EmptyString
  | String c s' =>
      match trim_end s' with
      | EmptyString => if is_space c then EmptyString else String c EmptyString
      | rest => String c rest
      end
  end.

Definition trim (s : string) : string := trim_end (skip_space s).

Definition is_digit (c : ascii) : bool :=
  let n := nat_of_ascii c in ((48 <=? n) && (n <=? 57))%nat.

Definition digit_value (c : ascii) : Z := Z.of_nat (nat_of_ascii c - 48).

(** The digits at the start of [s], read onto [acc], and what follows them. *)
Fixpoint read_digits (s : string) (acc : Z) : Z * string :=
  match s with
  | String c s' =>
      if is_digit c then read_digits s' (10 * acc + digit_value c) else (acc, s)
  | EmptyString => (acc, s)
  end.

(** An integer at the start of [s]: an optional minus sign and one digit at
    least. *)
Definition read_integer (s : string) : option (Z * string) :=
  let '(negative, body) :=
    match s with
    | String "-" s' => (true, s')
    | _ => (false, s)
    end in
  match body with
  | String c _ =>
      if is_digit c then
        let '(z, rest) := read_digits body 0 in
        Some (if negative : bool then - z else z, rest)
      else None
  | EmptyString => None
  end.

(** The characters up to the closing quote, and what follows it. *)
Fixpoint read_string (s : string) : option (string * string) :=
  match s with
  | EmptyString => None
  | String c s' =>
      if Ascii.eqb c "034" then Some (EmptyString, s')
      else if Ascii.eqb c "\" then None
      else match read_string s' with
           | Some (text, rest) => Some (String c text, rest)
           | None => None
           end
  end.

Fixpoint read_value (fuel : nat) (s : string) : option (JsVal * string) :=
  match fuel with
  | O => None
  | S fuel' =>
      let elements :=
        fix elements (n : nat) (s : string) (acc : list JsVal) : option (JsVal * string) :=
          match n with
          | O => None
          | S n' =>
              match read_value fuel' s with
              | Some (v, rest) =>
                  match skip_space rest with
                  | String "," rest' => elements n' rest' (acc ++ [v])
                  | String "]" rest' => Some (JArr (acc ++ [v]), rest')
                  | _ => None
                  end
              | None => None
              end
          end in
      let members :=
        fix members (n : nat) (s : string) (acc : list (string * JsVal))
            : option (JsVal * string) :=
          match n with
          | O => None
          | S n' =>
              match skip_space s with
              | String "034" s1 =>
                  match read_string s1 with
                  | Some (k, s2) =>
                      match skip_space s2 with
                      | String ":" s3 =>
                          match read_value fuel' s3 with
                          | Some (v, rest) =>
                              match skip_space rest with
                              | String "," rest' => members n' rest' (acc ++ [(k, v)])
                              | String "}" rest' => Some (JObj (acc ++ [(k, v)]), rest')
                              | _ => None
                              end
                          | None => None
                          end
                      | _ => None
                      end
                  | None => None
                  end
              | _ => None
              end
          end in
      match skip_space s with
      | String "034" s' =>
          match read_string s' with
          | Some (text, rest) => Some (JStr text, rest)
          | None => None
          end
      | String "[" s' =>
          match skip_space s' with
          | String "]" rest => Some (JArr [], rest)
          | _ => elements (String.length s') s' []
          end
      | String "{" s' =>
          match skip_space s' with
          | String "}" rest => Some (JObj [], rest)
          | _ => members (String.length s') s' []
          end
      | s0 =>
          if String.prefix "true" s0 then Some (JBool true, string_drop 4 s0)
          else if String.prefix "false" s0 then Some (JBool false, string_drop 5 s0)
          else if String.prefix "null" s0 then Some (JNull, string_drop 4 s0)
          else match read_integer s0 with
               | Some (z, rest) => Some (JNum z, rest)
               | None => None
               end
      end
  end.

Definition JSON_parse (text : string) : option JsVal :=
  match read_value (S (String.length text)) text with
  | Some (v, rest) =>
      match skip_space rest with
      | EmptyString => Some v
      | _ => None
      end
  | None => None
  end.

Definition parseInt (v : JsVal) : option Z :=
  match v with
  | JNum z => Some z
  | JStr s => option_map fst (read_integer (skip_space s))
  | _ => None
  end.

Definition toNumber_positive (v : JsVal) : bool :=
  match v with
  | JStr s =>
      match read_integer (trim s) with
      | Some (z, EmptyString) => 0 <? z
      | _ => false
      end
  | _ => false
  end.

Definition toString (v : JsVal) : string :=
  match v with
  | JUndefined => "undefined"
  | JNull => "null"
  | JBool true => "true"
  | JBool false => "false"
  | JStr s => s
  | JNative n => "function " +:+ n +:+ "() { [native code] }"
  | _ => "[object Object]"
  end.

End Ascii_runtime.

Definition ascii_runtime : JsRuntime :=
  {| toLowerCase := Ascii_runtime.toLowerCase;
     trim := Ascii_runtime.trim;
     JSON_parse := Ascii_runtime.JSON_parse;
     parseInt := Ascii_runtime.parseInt;
     toNumber_positive := Ascii_runtime.toNumber_positive;
     toString := Ascii_runtime.toString |}.

(** JSON text for the examples. *)
Definition json_string (s : string) : string := quoted s.
Definition json_member (k v : string) : string := quoted k +:+ ":" +:+ v.
Definition json_object (members : list string) : string := "{" +:+ join "," members +:+ "}".
Definition json_array (elements : list string) : string := "[" +:+ join "," elements +:+ "]".

(* ===================================================================== *)
(** ** Notions the properties are stated with *)
(* ===================================================================== *)

(** *** Runs *)

Definition result_of {A} (r : Outcome A * World) : Outcome A := fst r.
Definition world_of {A} (r : Outcome A * World) : World := snd r.

(** A computation that leaves the collaborators as it found them. *)
Definition Quiet {A} (m : M A) : Prop :=
  forall w, external (world_of (m w)) = external w.

(** A computation that never throws, and returns a value that satisfies
    [P]. *)
Definition Returns {A} (P : A -> Prop) (m : M A) : Prop :=
  forall w, exists a, result_of (m w) = Returned a /\ P a.

(** A computation that writes to a collaborator only when it returns a
    value that satisfies [ok]. *)
Definition Closed {A} (ok : A -> Prop) (m : M A) : Prop :=
  forall w,
    (exists a, result_of (m w) = Returned a /\ ok a)
    \/ external (world_of (m w)) = external w.

Definition anything {A} (a : A) : Prop := True.

(** *** The failure counter *)

(** The two functions that write [consecutiveErrors]; a call of
    [handleRecovery] comes with the value its render bound. *)
Inductive CounterEvent : Type :=
| Logged (action : string) (success : bool)
| Recovery (rendered : nat).

Definition counter_step (e : CounterEvent) (w : World) : World :=
  match e with
  | Logged action success => world_of (logAction action success w)
  | Recovery rendered => world_of (handleRecovery rendered w)
  end.

(** The world after the events, the oldest first. *)
Definition after_events (es : list CounterEvent) (w : World) : World :=
  foldl (fun w e => counter_step e w) w es.

Definition is_failure (e : CounterEvent) : bool :=
  match e with
  | Logged _ false => true
  | _ => false
  end.

Definition is_success (e : CounterEvent) : bool :=
  match e with
  | Logged _ true => true
  | _ => false
  end.


(** The failures in a run of events. *)
Definition failures (es : list CounterEvent) : nat :=
  length (filter (fun e => is_failure e = true) es).


(** *** The stored profile *)

(** The six fields the order completion asks for are set. *)
Definition profile_complete (u : UserInfo.t) : bool :=
  forallb truthy
    [ UserInfo.cardNumber u; UserInfo.expiryDate u; UserInfo.cvv u;
      UserInfo.name u; UserInfo.email u; UserInfo.address u ].

(** *** Categories and tags *)

(** The cases of [switch (primaryIntent)]. *)
Definition knownIntents : list string :=
  [ "navigation"; "order_completion"; "user_info"; "cart"; "product_action";
    "product_navigation"; "remove_filter"; "category_navigation"; "apply_filter";
    "clear_filters"; "general_command" ].

(** The tags [handleProductActions] compares [parsedAction.action] with. *)
Definition recognizedProductActions : list string :=
  [ "none"; "size"; "quantity"; "addToCart" ].

(** A removal answer whose six lists are absent or arrays of strings. *)
Definition well_typed_removal (parsedRemoval : JsVal) : Prop :=
  exists fields,
    parsedRemoval = JObj fields
    /\ forall d,
         own_property fields (key d) = None
         \/ exists raw, own_property fields (key d) = Some (JArr (map JStr raw)).

(** The category [handleVoiceCommand] routes a command on: the trimmed
    answer of the classifier, and [general_command] when the call fails. *)
Definition primaryIntentOf `{JsRuntime} (gateway : Gateway) (command : string)
    (w : World) : string :=
  match gateway (length (gatewayCalls w))
                (mkRequest masterIntentClassifier [("{transcript}", command)]) with
  | Some text => trim text
  | None => "general_command"
  end.

(** *** Product lookup *)

(** [x] is the first element of [l] that satisfies [f]. *)
Definition first_match {A} (f : A -> bool) (l : list A) (x : A) : Prop :=
  exists before after,
    l = before ++ x :: after /\ f x = true /\ forall y, y ∈ before -> f y = false.

Definition no_match {A} (f : A -> bool) (l : list A) : Prop :=
  forall y, y ∈ l -> f y = false.

Section ProductLookup.

Context `{rt : JsRuntime}.
Variable products : list Product.t.

(** Strategy 1: the name is the reference, case apart. *)
Definition is_exact (productName : string) (p : Product.t) : bool :=
  String.eqb (toLowerCase (Product.name p)) productName.

(** Strategy 2: the name contains the reference or the reference the name. *)
Definition is_partial (productName : string) (p : Product.t) : bool :=
  includes (toLowerCase (Product.name p)) productName
  || includes productName (toLowerCase (Product.name p)).

(** Strategy 3 of the source: the name contains the word [word]. *)
Definition has_keyword (word : string) (p : Product.t) : bool :=
  includes (toLowerCase (Product.name p)) word.

(** What the source resolves a reference to: the first exact match; or, when
    there is none, the first partial match; or, when there is none either,
    the first product whose name contains the first word of the reference of
    more than 3 characters that some product's name contains. *)
Definition Resolves (productName : string) (p : Product.t) : Prop :=
  first_match (is_exact productName) products p
  \/ (no_match (is_exact productName) products
      /\ first_match (is_partial productName) products p)
  \/ (no_match (is_exact productName) products
      /\ no_match (is_partial productName) products
      /\ exists skipped word rest,
           keywords productName = skipped ++ word :: rest
           /\ (forall w, w ∈ skipped -> no_match (has_keyword w) products)
           /\ first_match (has_keyword word) products p).

Definition Unresolved (productName : string) : Prop :=
  no_match (is_exact productName) products
  /\ no_match (is_partial productName) products
  /\ forall w, w ∈ keywords productName -> no_match (has_keyword w) products.

(** Strategy 3 in the words of the specification, "keyword overlap using
    catalog name words longer than 3 characters": the keywords of a product
    are the words of its lower-cased name that are longer than 3 characters,
    and the product matches when one of them overlaps with the reference;
    [overlap keyword reference] is what overlapping means. *)
Definition spec_keyword_overlap (overlap : string -> string -> bool)
    (productName : string) (p : Product.t) : bool :=
  existsb (fun keyword => overlap keyword productName)
          (keywords (toLowerCase (Product.name p))).

(** The resolution in the words of the specification. *)
Definition spec_resolveProduct (overlap : string -> string -> bool)
    (productName : string) : option Product.t :=
  match find (is_exact productName) products with
  | Some p => Some p
  | None =>
      match find (is_partial productName) products with
      | Some p => Some p
      | None => find (spec_keyword_overlap overlap productName) products
      end
  end.

End ProductLookup.

(** Three readings of the overlap of a keyword with the reference: the
    keyword occurs in the reference; it is a word of the reference; it
    contains a word of the reference. *)
Definition occurs_in (keyword reference : string) : bool :=
  includes reference keyword.

Definition is_word_of (keyword reference : string) : bool :=
  existsb (String.eqb keyword) (split " " reference).

Definition contains_word_of (keyword reference : string) : bool :=
  existsb (fun word => includes keyword word) (split " " reference).

(** *** Worlds and catalogs of the examples *)

Definition noUserInfo : UserInfo.t :=
  UserInfo.mk JUndefined JUndefined JUndefined JUndefined
              JUndefined JUndefined JUndefined JUndefined.

Definition completeUserInfo : UserInfo.t :=
  UserInfo.mk (JStr "Ada") (JStr "ada@example.org") (JStr "1 Main Street") (JStr "555")
              (JStr "Ada L") (JStr "4111111111111111") (JStr "12/30") (JStr "123").

(** A freshly mounted component on the page [path]. *)
Definition initialWorld (path : string) (info : UserInfo.t) (submit : bool) : World :=
  mkWorld path info submit false [] [] [] [] O "" false false O.

Definition exampleFilterOptions : FilterOptions.t :=
  FilterOptions.mk ["Red"; "Blue"; "Black"] ["S"; "M"; "L"] ["Cotton"] ["Men"; "Women"]
                   ["Nike"] ["Shoes"; "Mats"].

Definition exampleProducts : list Product.t :=
  [ Product.mk "1" "Running Shoes" "Light shoes for the road" ["8"; "9"; "10"];
    Product.mk "2" "Yoga Mats" "Mats that do not slip" ["One Size"] ].

(** A Gateway that answers every call with the same text. *)
Definition always (text : string) : Gateway := fun _ _ => Some text.

(** A Gateway that rejects every call. *)
Definition unreachable : Gateway := fun _ _ => None.

(** A Gateway that answers the first call of the session with [category] and
    every later one with [text]. *)
Definition classified (category text : string) : Gateway :=
  fun n _ => match n with O => Some category | S _ => Some text end.

(** *** Frames *)

(** A computation that leaves the part [f] of the world as it found it. *)
Definition Keeps {A B} (f : World -> B) (m : M A) : Prop :=
  forall w, f (world_of (m w)) = f w.

(** A computation that reads only. *)
Definition Pure {A} (m : M A) : Prop := Keeps (fun w => w) m.

(** The state of the component, its status line apart. *)
Definition session (w : World) : list (string * bool) * nat * bool * bool * nat :=
  (actionLog w, consecutiveErrors w, isListening w, recognitionRef w, restartsScheduled w).

(** A computation whose calls on the collaborators all satisfy [P]. *)
Definition Emits {A} (P : Effect -> Prop) (m : M A) : Prop :=
  forall w, exists added,
    effects (world_of (m w)) = effects w ++ added /\ Forall P added.

(** *** The Gateway calls of a dispatch *)

(** The request of the first tier. *)
Definition classification (command : string) : Request :=
  mkRequest masterIntentClassifier [("{transcript}", command)].

(** The request carries the utterance [transcript] as it was heard. *)
Definition carries (transcript : string) (r : Request) : Prop :=
  ("{transcript}", transcript) ∈ substitutions r.

(** The categories whose pathway may answer without asking the Gateway. *)
Definition mayAnswerUnasked : list string :=
  [ "product_action"; "clear_filters"; "general_command" ].

(** *** The log of a dispatch *)

(** The entry a dispatch logs last. *)
Definition verdict (command primaryIntent : string) (handled : bool) : string * bool :=
  ((if handled
    then "Successfully handled " +:+ quoted command +:+ " (" +:+ primaryIntent +:+ ")"
    else "No handler processed: " +:+ quoted command), handled).

(** The world in which a dispatch runs the pathway of the category: the
    command is logged, the status line says that it is processed, the
    classification is asked and the category is logged. *)
Definition classifiedWorld `{JsRuntime} (gateway : Gateway) (command : string) (w : World)
    : World :=
  world_of
    (logAction ("Identified primary intent: " +:+ primaryIntentOf gateway command w) true
       (record_call (classification command)
          (set_lastAction ("Processing: " +:+ quoted command)
             (world_of (logAction ("Processing command: " +:+ quoted command) true w))))).

(** The world a dispatch ends in, [after] being the world the pathway left
    and [handled] what it returned: the verdict is logged, after the status
    line has been set when the command was not handled. *)
Definition concludedWorld (command primaryIntent : string) (handled : bool) (after : World)
    : World :=
  world_of
    (logAction (fst (verdict command primaryIntent handled)) handled
       (if handled then after
        else set_lastAction ("Command not recognized: " +:+ quoted command) after)).

(** The commands of a session, each with the failure counter its render
    bound, dispatched one after the other. *)
Definition dispatchAll `{JsRuntime} (products : list Product.t) (filterOptions : FilterOptions.t)
    (gateway : Gateway) (commands : list (nat * string)) (w : World) : World :=
  foldl (fun w c =>
           world_of (handleVoiceCommand products filterOptions gateway (fst c) (snd c) w))
        w commands.

(** The errors of the recognition, reported one after the other. *)
Definition afterErrors (errors : list string) (w : World) : World :=
  foldl (fun w error => world_of (onerror error w)) w errors.

(** *** What a command may do *)

(** The pages the component navigates to by name. *)
Definition routes : list string :=
  [ "/"; "/cart"; "/payment"; "/confirmation";
    "/products/gym"; "/products/yoga"; "/products/jogging" ].

(** What a command may do to the collaborators: go to a named page or to the
    page of a product of the catalog, select a size some product of the
    catalog has, set a positive quantity, and write to the filter store, the
    profile store and the document; it may not stop the recognition. *)
Definition permitted (products : list Product.t) (e : Effect) : Prop :=
  match e with
  | Navigate path =>
      path ∈ routes \/ exists p, p ∈ products /\ path = "/product/" +:+ Product.id p
  | SetSelectedSize size => exists p, p ∈ products /\ size ∈ Product.sizes p
  | SetQuantity quantity => 0 < quantity
  | RecognitionStop => False
  | _ => True
  end.

(** The page of a category answer. *)
Definition categoryPath (response : string) : option string :=
  if String.eqb response "gym" then Some "/products/gym"
  else if String.eqb response "yoga" then Some "/products/yoga"
  else if String.eqb response "running" then Some "/products/jogging"
  else None.

(** The functions of [availableFunctions] the general commands have no case
    for. *)
Definition unhandledFunctions : list string := [ "navigateToCategory"; "applyFilters" ].

(** *** The filters an application writes *)

(** The property names [updateFilters] may be given, in the order
    [interpretFilterCommand] writes them. *)
Definition filterKeys : list string := map key dimensions ++ ["price"].

(** An entry of the normalised filters: the price, or a list that is not
    empty. *)
Definition filterEntry (entry : string * JsVal) : Prop :=
  fst entry = "price" \/ exists values, snd entry = JArr values /\ values <> [].

(** *** The answer of a profile update *)

(** [response.k] of an object [response] with the own properties [fields]. *)
Definition field (fields : list (string * JsVal)) (k : string) : JsVal :=
  match own_property fields k with
  | Some v => v
  | None => inherited k
  end.

(** The profile [u] with every field replaced that the answer sets. *)
Definition mergedUserInfo (fields : list (string * JsVal)) (u : UserInfo.t) : UserInfo.t :=
  UserInfo.mk
    (js_or (field fields "name") (UserInfo.name u))
    (js_or (field fields "email") (UserInfo.email u))
    (js_or (field fields "address") (UserInfo.address u))
    (js_or (field fields "phone") (UserInfo.phone u))
    (js_or (field fields "cardName") (UserInfo.cardName u))
    (js_or (field fields "cardNumber") (UserInfo.cardNumber u))
    (js_or (field fields "expiryDate") (UserInfo.expiryDate u))
    (js_or (field fields "cvv") (UserInfo.cvv u)).

(** The labels of the fields the answer sets, in the order of the profile. *)
Definition updatedLabels (fields : list (string * JsVal)) : list string :=
  flat_map (fun entry : string * string =>
              if truthy (field fields (fst entry)) then [snd entry] else [])
    [ ("name", "name"); ("email", "email"); ("address", "address"); ("phone", "phone");
      ("cardName", "card name"); ("cardNumber", "card number");
      ("expiryDate", "card expiry date"); ("cvv", "CVV") ].

(** The fields of a profile. *)
Definition userInfoGetters : list (UserInfo.t -> JsVal) :=
  [ UserInfo.name; UserInfo.email; UserInfo.address; UserInfo.phone;
    UserInfo.cardName; UserInfo.cardNumber; UserInfo.expiryDate; UserInfo.cvv ].

(** Every field that is set in [u] is set in [u']. *)
Definition nothing_unset (u u' : UserInfo.t) : Prop :=
  forall get, get ∈ userInfoGetters -> truthy (get u) = true -> truthy (get u') = true.

(** *** Fenced answers *)

(** The closing and the opening fence of an answer given as a block of
    JSON. *)
Definition fence : string := "```".
Definition jsonFence : string := "```json".

(** A catalog of filter values in which a colour is spelled three ways. *)
Definition respelledFilterOptions : FilterOptions.t :=
  FilterOptions.mk ["red"; "Red"; "RED"; "Blue"] ["S"; "M"; "L"] ["Cotton"] ["Men"; "Women"]
                   ["Nike"] ["Shoes"; "Mats"].

(* ===================================================================== *)
(** ** Properties *)
(* ===================================================================== *)

(** *** Strings and lists *)

Lemma prefix_app (p s : string) :
  String.prefix p s = true <-> exists r, s = p +:+ r.
Proof.
  revert s. induction p as [|c p IH]; intros s.
  - split; [intros _; exists s; reflexivity | intros _; by destruct s].
  - destruct s as [|d s]; simpl.
    + split; [discriminate | intros [r Hr]; discriminate].
    + destruct (ascii_dec c d) as [->|Hne].
      * rewrite IH. split; intros [r Hr]; exists r; [by rewrite Hr | by injection Hr].
      * split; [discriminate | intros [r Hr]; injection Hr; intros; congruence].
Qed.

(** [includes] is containment as a substring. *)
Lemma includes_spec (s p : string) :
  includes s p = true <-> exists before after, s = before +:+ p +:+ after.
Proof.
  split.
  - induction s as [|c s IH]; cbn [includes]; rewrite orb_true_iff; intros [Hp|Hi].
    + apply prefix_app in Hp as [r ->]. by exists EmptyString, r.
    + discriminate.
    + apply prefix_app in Hp as [r Hr]. exists EmptyString, r. by rewrite Hr.
    + destruct (IH Hi) as (a & b & ->). by exists (String c a), b.
  - intros (a & b & ->). induction a as [|c a IH].
    + assert (String.prefix p (p +:+ b) = true) as Hp by (apply prefix_app; eauto).
      change (EmptyString +:+ p +:+ b) with (p +:+ b).
      destruct (p +:+ b); cbn [includes]; rewrite Hp; reflexivity.
    + change (String c a +:+ p +:+ b) with (String c (a +:+ p +:+ b)).
      cbn [includes]. rewrite IH. apply orb_true_r.
Qed.

Lemma split_nonempty (sep : ascii) (s : string) : split sep s <> [].
Proof.
  induction s as [|c s IH]; simpl; [done|].
  destruct (Ascii.eqb c sep); [done|]. by destruct (split sep s).
Qed.

(** Joining the pieces of a split with the separator gives the string
    back. *)
Lemma join_split (sep : ascii) (s : string) :
  join (String sep EmptyString) (split sep s) = s.
Proof.
  induction s as [|c s IH]; simpl; [done|].
  destruct (Ascii.eqb_spec c sep) as [->|Hne].
  - unfold join in *. simpl. pose proof (split_nonempty sep s).
    destruct (split sep s) as [|w ws]; [done|]. simpl in *. by rewrite IH.
  - unfold join in *. pose proof (split_nonempty sep s).
    destruct (split sep s) as [|w ws]; [done|]. simpl in *.
    destruct ws; simpl in *; by rewrite <- IH.
Qed.

(** No piece of a split holds the separator. *)
Lemma split_pieces (sep : ascii) (s w : string) :
  w ∈ split sep s -> has_char sep w = false.
Proof.
  revert w. induction s as [|c s IH]; simpl; intros w Hw.
  - apply list_elem_of_singleton in Hw. by subst.
  - destruct (Ascii.eqb c sep) eqn:Hc.
    + apply elem_of_cons in Hw as [->|Hw]; [done | by apply IH].
    + pose proof (split_nonempty sep s).
      destruct (split sep s) as [|w0 ws]; [done|].
      apply elem_of_cons in Hw as [->|Hw].
      * simpl. rewrite Hc. apply IH. set_solver.
      * apply IH. set_solver.
Qed.

(** [remove_first] leaves a string without the pattern as it is, and takes
    the pattern off a string that starts with it. *)
Lemma remove_first_absent (p s : string) :
  includes s p = false -> remove_first p s = s.
Proof.
  induction s as [|c s IH]; cbn [includes remove_first]; intros H;
    apply orb_false_elim in H as [Hp Hi]; rewrite Hp; [done|].
  by rewrite IH.
Qed.

Lemma string_drop_app (p r : string) : string_drop (String.length p) (p +:+ r) = r.
Proof. induction p as [|c p IH]; simpl; [by destruct r | done]. Qed.

Lemma remove_first_prefix (p r : string) : remove_first p (p +:+ r) = r.
Proof.
  assert (String.prefix p (p +:+ r) = true) as Hp by (apply prefix_app; eauto).
  destruct (p +:+ r) eqn:E; cbn [remove_first]; rewrite Hp, <- E; apply string_drop_app.
Qed.

Lemma find_first_match {A} (f : A -> bool) (l : list A) (x : A) :
  find f l = Some x <-> first_match f l x.
Proof.
  induction l as [|a l IH]; simpl.
  - split; [discriminate|]. intros (before & after & H & _). by destruct before.
  - destruct (f a) eqn:Ha.
    + split.
      * intros [= Hx]. subst x. exists [], l. repeat split; [done | set_solver].
      * intros (before & after & H & Hx & Hb). destruct before as [|b before].
        -- injection H as H _. by subst.
        -- injection H as H _. subst b. rewrite Hb in Ha; [discriminate | set_solver].
    + rewrite IH. split.
      * intros (before & after & H & Hx & Hb). subst l. exists (a :: before), after.
        repeat split; [done|]. intros y Hy. apply elem_of_cons in Hy as [Hy|Hy]; [by subst|auto].
      * intros (before & after & H & Hx & Hb). destruct before as [|b before].
        -- injection H as H _. subst. congruence.
        -- injection H as H1 H2. subst. exists before, after. repeat split; [done|].
           intros y Hy. apply Hb. set_solver.
Qed.

Lemma find_no_match {A} (f : A -> bool) (l : list A) :
  find f l = None <-> no_match f l.
Proof.
  unfold no_match. induction l as [|a l IH]; simpl.
  - split; [set_solver | done].
  - destruct (f a) eqn:Ha.
    + split; [discriminate|]. intros H. rewrite H in Ha; [discriminate | set_solver].
    + rewrite IH. split.
      * intros H y Hy. apply elem_of_cons in Hy as [Hy|Hy]; [by subst|auto].
      * intros H y Hy. apply H. set_solver.
Qed.

Lemma first_match_not_no_match {A} (f : A -> bool) (l : list A) (x : A) :
  first_match f l x -> no_match f l -> False.
Proof.
  intros H N. apply find_first_match in H. apply find_no_match in N. congruence.
Qed.

(** *** Values *)

Lemma truthy_js_and (a b : JsVal) : truthy (js_and a b) = truthy a && truthy b.
Proof. unfold js_and. destruct (truthy a) eqn:Ha; simpl; [reflexivity | exact Ha]. Qed.

(** The chain of [&&] of the order completion is truthy exactly when the six
    fields are set. *)
Lemma hasRequiredInfo_complete (u : UserInfo.t) :
  truthy (hasRequiredInfo u) = profile_complete u.
Proof.
  unfold hasRequiredInfo, profile_complete. rewrite !truthy_js_and. simpl.
  rewrite andb_true_r, !andb_assoc. reflexivity.
Qed.

(** *** Rules for [Quiet], [Returns] and [Closed] *)

Section Rules.
Context {A B : Type}.

Lemma Quiet_ret (a : A) : Quiet (ret a).
Proof. by intros w. Qed.

Lemma Quiet_throw : Quiet (@throw A).
Proof. by intros w. Qed.

Lemma Quiet_gets (f : World -> A) : Quiet (gets f).
Proof. by intros w. Qed.

Lemma Quiet_bind (m : M A) (k : A -> M B) :
  Quiet m -> (forall a, Quiet (k a)) -> Quiet (bind m k).
Proof.
  intros Hm Hk w. specialize (Hm w). unfold bind, world_of in *.
  destruct (m w) as [[a|] w']; simpl in *; [|done].
  rewrite <- Hm. apply Hk.
Qed.

Lemma Quiet_try_catch (body handler : M A) :
  Quiet body -> Quiet handler -> Quiet (try_catch body handler).
Proof.
  intros Hb Hh w. specialize (Hb w). unfold try_catch, world_of in *.
  destruct (body w) as [[a|] w']; simpl in *; [done|].
  rewrite <- Hb. apply Hh.
Qed.

Lemma Returns_ret (P : A -> Prop) (a : A) : P a -> Returns P (ret a).
Proof. intros H w. by exists a. Qed.

Lemma Returns_gets (f : World -> A) : Returns anything (gets f).
Proof. intros w. by exists (f w). Qed.

Lemma Returns_bind (P : B -> Prop) (m : M A) (k : A -> M B) :
  Returns anything m -> (forall a, Returns P (k a)) -> Returns P (bind m k).
Proof.
  intros Hm Hk w. destruct (Hm w) as (a & Ha & _). unfold bind, result_of in *.
  destruct (m w) as [[a'|] w']; simpl in *; [|done]. apply Hk.
Qed.

(** A [try] whose handler returns never throws. *)
Lemma Returns_try_catch (body handler : M A) :
  Returns anything handler -> Returns anything (try_catch body handler).
Proof.
  intros Hh w. unfold try_catch, result_of in *.
  destruct (body w) as [[a|] w']; simpl in *; [by exists a|]. apply Hh.
Qed.

Lemma Closed_quiet (ok : A -> Prop) (m : M A) : Quiet m -> Closed ok m.
Proof. intros H w. right. apply H. Qed.

Lemma Closed_returns (ok : A -> Prop) (m : M A) : Returns ok m -> Closed ok m.
Proof. intros H w. left. apply H. Qed.

Lemma Closed_bind (ok : B -> Prop) (m : M A) (k : A -> M B) :
  Quiet m -> (forall a, Closed ok (k a)) -> Closed ok (bind m k).
Proof.
  intros Hm Hk w. specialize (Hm w). unfold bind, world_of, result_of in *.
  destruct (m w) as [[a|] w']; simpl in *; [|by right].
  rewrite <- Hm. apply Hk.
Qed.

Lemma Closed_try_catch (ok : A -> Prop) (body handler : M A) :
  Closed ok body -> Closed ok handler -> Closed ok (try_catch body handler).
Proof.
  intros Hb Hh w. specialize (Hb w). unfold try_catch, world_of, result_of in *.
  destruct (body w) as [[a|] w']; simpl in *; [done|].
  destruct Hb as [(a & [=] & _)|Hb]. rewrite <- Hb. apply Hh.
Qed.

(** A step that writes only when it returns a value in [P], followed by a
    continuation that goes on to an accepted value from such a value. *)
Lemma Closed_bind_step (P : A -> Prop) (ok : B -> Prop) (m : M A) (k : A -> M B) :
  Closed P m -> (forall a, P a -> Returns ok (k a)) -> (forall a, Closed ok (k a)) ->
  Closed ok (bind m k).
Proof.
  intros Hm Hk Hc w. specialize (Hm w). unfold bind, world_of, result_of in *.
  destruct (m w) as [[a|] w']; simpl in *.
  - destruct Hm as [(a' & [= <-] & Ha)|Hm]; [left; by apply Hk|].
    rewrite <- Hm. apply Hc.
  - destruct Hm as [(a' & [=] & _)|Hm]. by right.
Qed.

End Rules.

(** A step that reports whether it acted, followed by what is done in
    either case. *)
Lemma Closed_bind_closed {B} (ok : B -> Prop) (m : M bool) (k : bool -> M B) :
  Closed (eq true) m -> Returns ok (k true) -> Closed ok (k false) ->
  Closed ok (bind m k).
Proof.
  intros Hm Ht Hf. apply (Closed_bind_step (eq true)); [done| |].
  - by intros a <-.
  - intros [|]; [by apply Closed_returns | done].
Qed.

Lemma Returns_modify (f : World -> World) : Returns anything (modify f).
Proof. intros w. by exists tt. Qed.

Lemma Quiet_mapM {A B} (f : A -> M B) (l : list A) :
  (forall a, Quiet (f a)) -> Quiet (mapM f l).
Proof.
  intros Hf. induction l as [|a l IH]; simpl; [apply Quiet_ret|].
  apply Quiet_bind; [apply Hf|]. intros b.
  apply Quiet_bind; [apply IH|]. intros bs. apply Quiet_ret.
Qed.

Lemma Quiet_findM {A} (f : A -> M bool) (l : list A) :
  (forall a, Quiet (f a)) -> Quiet (findM f l).
Proof.
  intros Hf. induction l as [|a l IH]; simpl; [apply Quiet_ret|].
  apply Quiet_bind; [apply Hf|]. intros [|]; [apply Quiet_ret | apply IH].
Qed.

Lemma Quiet_foldM {A B} (f : A -> B -> M A) (a : A) (l : list B) :
  (forall a b, Quiet (f a b)) -> Quiet (foldM f a l).
Proof.
  intros Hf. revert a. induction l as [|b l IH]; intros a; simpl; [apply Quiet_ret|].
  apply Quiet_bind; [apply Hf | apply IH].
Qed.

(** The writes of the component never throw. *)
Lemma Returns_navigate (p : string) : Returns anything (navigate p).
Proof. apply Returns_modify. Qed.
Lemma Returns_historyBack : Returns anything historyBack.
Proof. apply Returns_modify. Qed.
Lemma Returns_updateFilters f : Returns anything (updateFilters f).
Proof. apply Returns_modify. Qed.
Lemma Returns_clearFilters : Returns anything clearFilters.
Proof. apply Returns_modify. Qed.
Lemma Returns_removeFilter t v : Returns anything (removeFilter t v).
Proof. apply Returns_modify. Qed.
Lemma Returns_updateUserInfo u : Returns anything (updateUserInfo u).
Proof. apply Returns_modify. Qed.
Lemma Returns_dispatchUserInfoUpdated m f : Returns anything (dispatchUserInfoUpdated m f).
Proof. apply Returns_modify. Qed.
Lemma Returns_setSelectedSize s : Returns anything (setSelectedSize s).
Proof. apply Returns_modify. Qed.
Lemma Returns_setQuantity n : Returns anything (setQuantity n).
Proof. apply Returns_modify. Qed.
Lemma Returns_click c : Returns anything (click c).
Proof. apply Returns_modify. Qed.
Lemma Returns_setLastAction s : Returns anything (setLastAction s).
Proof. apply Returns_modify. Qed.
Lemma Returns_logAction a s : Returns anything (logAction a s).
Proof. apply Returns_modify. Qed.
Lemma Returns_getUserInfo : Returns anything getUserInfo.
Proof. apply Returns_gets. Qed.

Lemma Quiet_setLastAction (s : string) : Quiet (setLastAction s).
Proof. by intros w. Qed.

Lemma Quiet_logAction (action : string) (success : bool) : Quiet (logAction action success).
Proof. by intros w. Qed.

Lemma Quiet_getUserInfo : Quiet getUserInfo.
Proof. by intros w. Qed.

(** *** Running a computation *)

Lemma mapM_ext {A B} (f g : A -> M B) (l : list A) (w : World) :
  (forall a w, f a w = g a w) -> mapM f l w = mapM g l w.
Proof.
  intros H. revert w. induction l as [|a l IH]; intros w; simpl; [done|].
  unfold bind. rewrite H. destruct (g a w) as [[b|] w1]; [|done].
  rewrite IH. done.
Qed.

Lemma inherited_key (d : Dimension) : inherited (key d) = JUndefined.
Proof. by destruct d. Qed.

Lemma bind_Returned {A B} (m : M A) (k : A -> M B) (w w' : World) (a : A) :
  m w = (Returned a, w') -> bind m k w = k a w'.
Proof. intros H. unfold bind. by rewrite H. Qed.

(** *** What the interpreters read is read quietly *)

Section Reads.
Context `{rt : JsRuntime}.
Variable filterOptions : FilterOptions.t.
Variable gateway : Gateway.

(** A call of the Gateway is no write to a collaborator. *)
Lemma Quiet_generateContent (t : PromptTemplate) (subst : list (string * string)) :
  Quiet (generateContent gateway t subst).
Proof. intros w. unfold generateContent. by destruct (gateway _ _). Qed.

Lemma Quiet_get_prop (v : JsVal) (k : string) : Quiet (get_prop v k).
Proof. unfold get_prop. destruct v; first [apply Quiet_ret | apply Quiet_throw]. Qed.

Lemma Quiet_parse (text : string) : Quiet (parse text).
Proof. unfold parse. destruct (JSON_parse text); [apply Quiet_ret | apply Quiet_throw]. Qed.

Lemma Quiet_call_toLowerCase (v : JsVal) : Quiet (call_toLowerCase v).
Proof. unfold call_toLowerCase. destruct v; first [apply Quiet_ret | apply Quiet_throw]. Qed.

Lemma Quiet_call_map (v : JsVal) (f : JsVal -> M JsVal) :
  (forall a, Quiet (f a)) -> Quiet (call_map v f).
Proof.
  intros Hf. unfold call_map. destruct v; try apply Quiet_throw.
  apply Quiet_bind; [by apply Quiet_mapM | intros; apply Quiet_ret].
Qed.

Lemma Quiet_nonEmpty (v : JsVal) : Quiet (nonEmpty v).
Proof.
  unfold nonEmpty. destruct (truthy v); [|apply Quiet_ret].
  apply Quiet_bind; [apply Quiet_get_prop | intros; apply Quiet_ret].
Qed.

Lemma Quiet_restoreCasing (d : Dimension) (c : JsVal) :
  Quiet (restoreCasing filterOptions d c).
Proof.
  unfold restoreCasing.
  apply Quiet_bind; [apply Quiet_call_toLowerCase | intros; apply Quiet_ret].
Qed.

Lemma Quiet_normalizeDimension (parsed : JsVal) (acc : list (string * JsVal))
    (d : Dimension) :
  Quiet (normalizeDimension filterOptions parsed acc d).
Proof.
  unfold normalizeDimension.
  apply Quiet_bind; [apply Quiet_get_prop|]. intros values.
  apply Quiet_bind; [apply Quiet_nonEmpty|]. intros [|]; [|apply Quiet_ret].
  apply Quiet_bind; [|intros; apply Quiet_ret].
  apply Quiet_call_map. apply Quiet_restoreCasing.
Qed.

Lemma Quiet_mergeFields (response : JsVal) table (u : UserInfo.t) (fields : list string) :
  Quiet (mergeFields response table u fields).
Proof.
  revert u fields. induction table as [|[[k label] assign] table IH]; intros u fields; simpl.
  - apply Quiet_ret.
  - apply Quiet_bind; [apply Quiet_get_prop|]. intros v. destruct (truthy v); apply IH.
Qed.

Lemma Quiet_classifyPrimaryIntent (transcript : string) :
  Quiet (classifyPrimaryIntent gateway transcript).
Proof.
  unfold classifyPrimaryIntent. apply Quiet_try_catch; [|apply Quiet_ret].
  apply Quiet_bind; [apply Quiet_generateContent | intros; apply Quiet_ret].
Qed.

(** The classifier always yields a category. *)
Lemma Returns_classifyPrimaryIntent (transcript : string) :
  Returns anything (classifyPrimaryIntent gateway transcript).
Proof. unfold classifyPrimaryIntent. apply Returns_try_catch, Returns_ret. done. Qed.

End Reads.

Create HintDb js_quiet.
#[local] Hint Resolve Quiet_generateContent Quiet_get_prop Quiet_parse Quiet_call_toLowerCase
  Quiet_nonEmpty Quiet_restoreCasing Quiet_normalizeDimension Quiet_mergeFields
  Quiet_classifyPrimaryIntent Quiet_setLastAction Quiet_logAction Quiet_getUserInfo
  Quiet_ret Quiet_throw Quiet_gets : js_quiet.

Create HintDb js_returns.
#[local] Hint Resolve Returns_navigate Returns_historyBack Returns_updateFilters
  Returns_clearFilters Returns_removeFilter Returns_updateUserInfo
  Returns_dispatchUserInfoUpdated Returns_setSelectedSize Returns_setQuantity Returns_click
  Returns_setLastAction Returns_logAction Returns_getUserInfo Returns_modify Returns_gets
  Returns_classifyPrimaryIntent : js_returns.

(** The three judgements are decided along the syntax of the code. *)
Ltac quiet :=
  repeat
    (cbv zeta;
     lazymatch goal with
     | |- Quiet (bind _ _) => apply Quiet_bind; [|intros ?]
     | |- Quiet (try_catch _ _) => apply Quiet_try_catch
     | |- Quiet (mapM _ _) => apply Quiet_mapM; intros ?
     | |- Quiet (findM _ _) => apply Quiet_findM; intros ?
     | |- Quiet (foldM _ _ _) => apply Quiet_foldM; intros ? ?
     | |- Quiet (call_map _ _) => apply Quiet_call_map; intros ?
     | |- Quiet (if ?c then _ else _) => destruct c
     | |- Quiet (match ?c with _ => _ end) => destruct c
     | |- Quiet _ => solve [auto with js_quiet]
     end).

Ltac returns :=
  repeat
    (cbv zeta;
     lazymatch goal with
     | |- Returns _ (ret _) => apply Returns_ret; done
     | |- Returns _ (bind _ _) => apply Returns_bind; [|intros ?]
     | |- Returns _ (try_catch _ _) => apply Returns_try_catch
     | |- Returns _ (if ?c then _ else _) => destruct c
     | |- Returns _ (match ?c with _ => _ end) => destruct c
     | |- Returns _ _ => solve [auto with js_returns]
     end).

Ltac closed :=
  repeat
    (cbv zeta;
     lazymatch goal with
     | |- Closed _ (try_catch _ _) => apply Closed_try_catch
     | |- Closed _ (bind _ _) =>
         first [ apply Closed_bind; [solve [quiet] | intros ?]
               | solve [apply Closed_returns; returns]
               | apply Closed_bind_closed; [ | solve [returns] | ] ]
     | |- Closed _ (if ?c then _ else _) => destruct c
     | |- Closed _ (match ?c with _ => _ end) => destruct c
     | |- Closed _ (ret _) =>
         first [ apply Closed_returns, Returns_ret; reflexivity
               | apply Closed_quiet, Quiet_ret ]
     | |- Closed _ _ => solve [apply Closed_quiet; auto with js_quiet]
     end).

(** *** The interpreters fail closed *)

Section Interpreters.
Context `{rt : JsRuntime}.
Variable products : list Product.t.
Variable filterOptions : FilterOptions.t.
Variable gateway : Gateway.
Variable renderedErrors : nat.

Lemma Closed_handleNavigationCommand (t : string) :
  Closed (eq true) (handleNavigationCommand gateway t).
Proof. unfold handleNavigationCommand. closed. Qed.

Lemma Closed_handleOrderCompletion (t : string) :
  Closed (eq true) (handleOrderCompletion gateway t).
Proof. unfold handleOrderCompletion, submitOrder. closed. Qed.

Lemma Closed_handleUserInfoUpdate (t : string) :
  Closed (eq true) (handleUserInfoUpdate gateway t).
Proof. unfold handleUserInfoUpdate. closed. Qed.

Lemma Closed_handleCartNavigation (t : string) :
  Closed (eq true) (handleCartNavigation gateway t).
Proof. unfold handleCartNavigation. closed. Qed.

Lemma Closed_handleCategoryNavigation (t : string) :
  Closed (eq true) (handleCategoryNavigation gateway t).
Proof. unfold handleCategoryNavigation. closed. Qed.

Lemma Closed_handleProductDetailNavigation (t : string) :
  Closed (eq true) (handleProductDetailNavigation products gateway t).
Proof. unfold handleProductDetailNavigation. closed. Qed.

Lemma Closed_handleProductActions (t : string) :
  Closed (eq true) (handleProductActions products gateway t).
Proof. unfold handleProductActions, clickAddToCartByText. closed. Qed.

(** The filter application writes once, at its end, and then answers
    "filters_updated". *)
Lemma Closed_interpretFilterCommand (t : string) :
  Closed (eq "filters_updated") (interpretFilterCommand filterOptions gateway t).
Proof.
  unfold interpretFilterCommand. apply Closed_try_catch; [|closed].
  apply Closed_bind; [quiet|intros response]. cbv zeta.
  apply (Closed_bind_step (eq (Some "filters_updated"))).
  - closed.
  - intros a <-. returns.
  - intros [r|]; closed.
Qed.

Lemma Returns_interpretFilterCommand (t : string) :
  Returns anything (interpretFilterCommand filterOptions gateway t).
Proof. unfold interpretFilterCommand. apply Returns_try_catch. returns. Qed.

Lemma Returns_interpretCommand (t : string) :
  Returns anything (interpretCommand gateway t).
Proof. unfold interpretCommand. apply Returns_try_catch. returns. Qed.

Lemma Quiet_interpretCommand (t : string) : Quiet (interpretCommand gateway t).
Proof. unfold interpretCommand. quiet. Qed.

Lemma Closed_generalCommand (action : string) :
  Closed (eq true) (generalCommand action).
Proof. unfold generalCommand, generalCheckout, submitOrder. closed. Qed.

(** Every interpreter catches what it raises. *)
Lemma Returns_interpreters (command : string) :
  Returns anything (handleNavigationCommand gateway command)
  /\ Returns anything (handleOrderCompletion gateway command)
  /\ Returns anything (handleUserInfoUpdate gateway command)
  /\ Returns anything (handleCartNavigation gateway command)
  /\ Returns anything (handleProductActions products gateway command)
  /\ Returns anything (handleProductDetailNavigation products gateway command)
  /\ Returns anything (handleRemoveFilters filterOptions gateway command)
  /\ Returns anything (handleCategoryNavigation gateway command).
Proof. repeat split; apply Returns_try_catch; returns. Qed.

(** No pathway throws. *)
Lemma Returns_routeIntent (primaryIntent command : string) :
  Returns anything (routeIntent products filterOptions gateway primaryIntent command).
Proof.
  destruct (Returns_interpreters command) as (? & ? & ? & ? & ? & ? & ? & ?).
  pose proof (Returns_interpretFilterCommand command).
  pose proof (Returns_interpretCommand command).
  unfold routeIntent, generalCommand, generalCheckout, submitOrder.
  repeat match goal with
         | |- Returns _ (if String.eqb ?a ?b then _ else _) =>
             destruct (String.eqb a b)
         end; try done.
  all: repeat (cbv zeta;
         lazymatch goal with
         | |- Returns _ (ret _) => apply Returns_ret; done
         | |- Returns _ (bind _ _) => apply Returns_bind; [|intros ?]
         | |- Returns _ (if ?c then _ else _) => destruct c
         | |- Returns _ _ => solve [auto with js_returns]
         end).
Qed.

(** Every pathway but the filter removal either reports the command handled
    or leaves the collaborators as they were. *)
Lemma Closed_routeIntent (primaryIntent command : string) :
  primaryIntent <> "remove_filter" ->
  Closed (eq true) (routeIntent products filterOptions gateway primaryIntent command).
Proof.
  intros Hne. unfold routeIntent.
  pose proof (Closed_handleNavigationCommand command).
  pose proof (Closed_handleOrderCompletion command).
  pose proof (Closed_handleUserInfoUpdate command).
  pose proof (Closed_handleCartNavigation command).
  pose proof (Closed_handleProductActions command).
  pose proof (Closed_handleProductDetailNavigation command).
  pose proof (Closed_handleCategoryNavigation command).
  pose proof (Closed_interpretFilterCommand command).
  pose proof (Returns_interpretFilterCommand command).
  repeat match goal with
         | |- Closed _ (if String.eqb ?a ?b then _ else _) =>
             destruct (String.eqb_spec a b)
         end; try done.
  - apply (Closed_bind_step (eq true)); [done| |].
    + intros a <-. returns.
    + intros [|]; closed.
  - apply (Closed_bind_step (eq true)); [done| |].
    + intros a <-. returns.
    + intros [|]; closed.
  - apply (Closed_bind_step (eq true)); [done| |].
    + intros a <-. returns.
    + intros [|]; closed.
  - apply (Closed_bind_step (eq true)); [done| |].
    + intros a <-. apply Returns_bind; [returns|]. intros _.
      apply Returns_bind; [done|]. intros r. returns.
    + intros [|]; [|closed].
      apply Closed_returns. apply Returns_bind; [returns|]. intros _.
      apply Returns_bind; [done|]. intros r. returns.
  - apply (Closed_bind_step (eq "filters_updated")); [done| |].
    + intros a <-. simpl. returns.
    + intros r. closed.
  - closed.
  - apply Closed_bind; [apply Quiet_interpretCommand|]. intros action.
    apply Closed_generalCommand.
  - closed.
Qed.

(** A category outside the known ones selects no pathway. *)
Lemma routeIntent_unknown (primaryIntent command : string) (w : World) :
  primaryIntent ∉ knownIntents ->
  routeIntent products filterOptions gateway primaryIntent command w = (Returned false, w).
Proof.
  intros H. unfold routeIntent.
  repeat match goal with
         | |- context [String.eqb primaryIntent ?b] =>
             destruct (String.eqb_spec primaryIntent b) as [->|_];
             [exfalso; apply H; unfold knownIntents; set_solver|]
         end.
  reflexivity.
Qed.

(** What a dispatch comes to: the pathway of the category is run once, and
    its answer is what the log records. *)
Lemma handleVoiceCommand_routes (command : string) (w : World) :
  let primaryIntent := primaryIntentOf gateway command w in
  let run := handleVoiceCommand products filterOptions gateway renderedErrors command w in
  exists before handled after,
    external before = external w
    /\ routeIntent products filterOptions gateway primaryIntent command before
       = (Returned handled, after)
    /\ result_of run = Returned tt
    /\ external (world_of run) = external after
    /\ (consecutiveErrors (world_of run) = O <-> handled = true)
    /\ exists message, head (actionLog (world_of run)) = Some (message, handled).
Proof.
  intros primaryIntent run. subst primaryIntent run.
  unfold handleVoiceCommand, primaryIntentOf.
  cbv [bind logAction setLastAction modify ret try_catch classifyPrimaryIntent generateContent].
  cbn [gatewayCalls set_lastAction set_log].
  set (request := mkRequest masterIntentClassifier [("{transcript}", command)]).
  destruct (gateway (length (gatewayCalls w)) request) as [text|]; cbv beta iota.
  all: match goal with
       | |- context [routeIntent products filterOptions gateway ?i ?c ?b] =>
           exists b; destruct (Returns_routeIntent i c b) as (handled & Hh & _);
           unfold result_of in Hh;
           destruct (routeIntent products filterOptions gateway i c b) as [[h|] after];
           [|discriminate]
       end.
  all: exists h, after; destruct h; cbn; repeat split; eauto; discriminate.
Qed.

(** X20. Every category but the filter removal: a command that is not
    reported handled is logged as a failure and has left the collaborators
    as they were. *)
Lemma handleVoiceCommand_unhandled_frame (command : string) (w : World) :
  let run := handleVoiceCommand products filterOptions gateway renderedErrors command w in
  primaryIntentOf gateway command w <> "remove_filter" ->
  consecutiveErrors (world_of run) <> O ->
  external (world_of run) = external w
  /\ exists message, head (actionLog (world_of run)) = Some (message, false).
Proof.
  intros run Hne Hfail. subst run.
  destruct (handleVoiceCommand_routes command w)
    as (before & handled & after & Hb & Hr & _ & He & Hc & message & Hm).
  destruct handled; [exfalso; by apply Hfail, Hc|]. split; [|eauto].
  rewrite He, <- Hb.
  destruct (Closed_routeIntent _ command Hne before) as [(a & Ha & <-)|Hq].
  - unfold result_of in Ha. rewrite Hr in Ha. discriminate.
  - unfold world_of in Hq. by rewrite Hr in Hq.
Qed.

(** A product-action answer with a tag outside the recognised ones is
    reported handled, and nothing is done. *)
Lemma handleProductActions_unrecognized_tag
    (transcript response tag : string) (fields : list (string * JsVal))
    (product : Product.t) (w : World) :
  let request :=
    mkRequest productAction
      [ ("{productName}", Product.name product);
        ("{sizes}", join ", " (Product.sizes product));
        ("{transcript}", transcript) ] in
  startsWith (pathname w) "/product/" = true ->
  find (fun p => bool_decide (Some (Product.id p) = last (split "/" (pathname w)))) products
    = Some product ->
  gateway (length (gatewayCalls w)) request = Some response ->
  JSON_parse (trim (stripFences response)) = Some (JObj fields) ->
  own_property fields "action" = Some (JStr tag) ->
  tag ∉ recognizedProductActions ->
  handleProductActions products gateway transcript w = (Returned true, record_call request w).
Proof.
  intros request Hpage Hprod Hgw Hparse Haction Htag.
  assert (forall lit, lit ∈ recognizedProductActions -> is_str (JStr tag) lit = false) as Hno.
  { intros lit Hlit. simpl. destruct (String.eqb_spec tag lit); [congruence | done]. }
  unfold handleProductActions, try_catch at 1.
  unfold bind at 1. unfold gets at 1. rewrite Hpage. cbn [negb].
  rewrite Hprod. unfold bind at 1, generateContent. fold request. rewrite Hgw.
  cbv zeta. unfold try_catch, parse, bind at 1. rewrite Hparse.
  unfold ret at 1. unfold bind at 1. unfold get_prop at 1. rewrite Haction.
  unfold ret at 1.
  rewrite !Hno by (unfold recognizedProductActions; set_solver).
  reflexivity.
Qed.

End Interpreters.

(** *** The product lookup *)

Section Resolution.
Context `{rt : JsRuntime}.
Variable products : list Product.t.

Lemma keywordMatch_Some (words : list string) (p : Product.t) :
  keywordMatch products words = Some p <->
  exists skipped word rest,
    words = skipped ++ word :: rest
    /\ (forall w, w ∈ skipped -> no_match (has_keyword w) products)
    /\ first_match (has_keyword word) products p.
Proof.
  induction words as [|word words IH]; simpl.
  - split; [discriminate|]. intros (skipped & ? & ? & H & _). by destruct skipped.
  - fold (has_keyword word). destruct (find (has_keyword word) products) as [q|] eqn:Hq.
    + split.
      * intros [= Hp]. subst q. exists [], word, words.
        repeat split; [set_solver | by apply find_first_match].
      * intros (skipped & word' & rest & H & Hs & Hf). destruct skipped as [|s skipped].
        -- injection H as H _. subst word'. apply find_first_match in Hf. congruence.
        -- injection H as H _. subst s. exfalso.
           apply find_first_match in Hq.
           eapply first_match_not_no_match; [exact Hq|]. apply Hs. set_solver.
    + rewrite IH. split.
      * intros (skipped & word' & rest & H & Hs & Hf). subst words.
        exists (word :: skipped), word', rest. repeat split; [|done].
        intros w Hw. apply elem_of_cons in Hw as [Hw|Hw];
          [subst w; by apply find_no_match | by apply Hs].
      * intros (skipped & word' & rest & H & Hs & Hf). destruct skipped as [|s skipped].
        -- injection H as H _. subst word'. apply find_first_match in Hf. congruence.
        -- injection H as H1 H2. subst s words.
           exists skipped, word', rest. repeat split; [|done].
           intros w Hw. apply Hs. set_solver.
Qed.

Lemma keywordMatch_None (words : list string) :
  keywordMatch products words = None <->
  forall w, w ∈ words -> no_match (has_keyword w) products.
Proof.
  induction words as [|word words IH]; simpl.
  - split; [set_solver | done].
  - fold (has_keyword word). destruct (find (has_keyword word) products) as [q|] eqn:Hq.
    + split; [discriminate|]. intros H. exfalso.
      apply find_first_match in Hq.
      eapply first_match_not_no_match; [exact Hq|]. apply H. set_solver.
    + rewrite IH. split.
      * intros H w Hw. apply elem_of_cons in Hw as [Hw|Hw];
          [subst w; by apply find_no_match | by apply H].
      * intros H w Hw. apply H. set_solver.
Qed.

(** The source's lookup finds [p] exactly when [p] is the product the three
    strategies resolve the reference to. *)
Lemma resolveProduct_Some (productName : string) (p : Product.t) :
  resolveProduct products productName = Some p <-> Resolves products productName p.
Proof.
  unfold resolveProduct, Resolves, exactMatch, partialMatch.
  fold (is_exact productName) (is_partial productName).
  destruct (find (is_exact productName) products) as [q|] eqn:He.
  - split.
    + intros [= Hp]. subst q. left. by apply find_first_match.
    + apply find_first_match in He.
      intros [H|[[N _]|[N _]]].
      * apply find_first_match in H, He. congruence.
      * exfalso. eapply first_match_not_no_match; eauto.
      * exfalso. eapply first_match_not_no_match; eauto.
  - apply find_no_match in He.
    destruct (find (is_partial productName) products) as [q|] eqn:Hp.
    + split.
      * intros [= Hq]. subst q. right. left. split; [done | by apply find_first_match].
      * apply find_first_match in Hp.
        intros [H|[[_ H]|(_ & N & _)]].
        -- exfalso. eapply first_match_not_no_match; eauto.
        -- apply find_first_match in H, Hp. congruence.
        -- exfalso. eapply first_match_not_no_match; eauto.
    + apply find_no_match in Hp. rewrite keywordMatch_Some. split.
      * intros H. right. right. done.
      * intros [H|[[_ H]|(_ & _ & H)]]; [| |done].
        -- exfalso. eapply first_match_not_no_match; eauto.
        -- exfalso. eapply first_match_not_no_match; eauto.
Qed.

Lemma resolveProduct_None (productName : string) :
  resolveProduct products productName = None <-> Unresolved products productName.
Proof.
  unfold resolveProduct, Unresolved, exactMatch, partialMatch.
  fold (is_exact productName) (is_partial productName).
  destruct (find (is_exact productName) products) as [q|] eqn:He.
  - apply find_first_match in He. split; [discriminate|].
    intros (N & _). exfalso. eapply first_match_not_no_match; eauto.
  - apply find_no_match in He.
    destruct (find (is_partial productName) products) as [q|] eqn:Hp.
    + apply find_first_match in Hp. split; [discriminate|].
      intros (_ & N & _). exfalso. eapply first_match_not_no_match; eauto.
    + apply find_no_match in Hp. rewrite keywordMatch_None. tauto.
Qed.

(** A reference resolves to one product at most, and to none when it is
    unresolved. *)
Lemma Resolves_deterministic (productName : string) (p q : Product.t) :
  Resolves products productName p -> Resolves products productName q -> p = q.
Proof. rewrite <- !resolveProduct_Some. congruence. Qed.

Lemma Resolves_not_Unresolved (productName : string) (p : Product.t) :
  Resolves products productName p -> Unresolved products productName -> False.
Proof. rewrite <- resolveProduct_Some, <- resolveProduct_None. congruence. Qed.

End Resolution.

(** *** The normaliser *)

Section Normalizer.
Context `{rt : JsRuntime}.
Variable filterOptions : FilterOptions.t.

Lemma fromEntries_snoc (values : list string) (c : string) :
  fromEntries (values ++ [c]) = <[toLowerCase c := c]> (fromEntries values).
Proof. unfold fromEntries. by rewrite foldl_app. Qed.

(** An own property of a reference map is a canonical value under its
    lower-cased spelling. *)
Lemma fromEntries_Some (values : list string) (k c : string) :
  fromEntries values !! k = Some c -> c ∈ values /\ toLowerCase c = k.
Proof.
  induction values as [|c0 values IH] using rev_ind.
  - unfold fromEntries. simpl. by rewrite lookup_empty.
  - rewrite fromEntries_snoc. destruct (decide (toLowerCase c0 = k)) as [<-|Hne].
    + rewrite lookup_insert_eq. intros [= ->]. split; [set_solver | done].
    + rewrite lookup_insert_ne by done. intros [Hin Hk]%IH. split; [set_solver | done].
Qed.

(** A reference map has an own property for every lower-cased canonical
    value, and for nothing else. *)
Lemma fromEntries_None (values : list string) (k : string) :
  fromEntries values !! k = None <-> forall c, c ∈ values -> toLowerCase c <> k.
Proof.
  induction values as [|c0 values IH] using rev_ind.
  - unfold fromEntries. simpl. rewrite lookup_empty. split; [set_solver | done].
  - rewrite fromEntries_snoc. destruct (decide (toLowerCase c0 = k)) as [<-|Hne].
    + rewrite lookup_insert_eq. split; [discriminate|].
      intros H. exfalso. apply (H c0); [set_solver | done].
    + rewrite lookup_insert_ne by done. rewrite IH. split.
      * intros H c [Hc|Hc]%elem_of_app; [by apply H|].
        apply list_elem_of_singleton in Hc. by subst.
      * intros H c Hc. apply H. set_solver.
Qed.

(** What the normaliser answers on a string, case by case. *)
Lemma restoreCasing_string (d : Dimension) (v : string) (w : World) :
  restoreCasing filterOptions d (JStr v) w =
  (Returned
     match referenceMap filterOptions d !! toLowerCase v with
     | Some c => if String.eqb c "" then JStr v else JStr c
     | None =>
         if bool_decide (toLowerCase v ∈ objectPrototype)
         then JNative (toLowerCase v) else JStr v
     end, w).
Proof.
  unfold restoreCasing, call_toLowerCase, bind, ret, js_or, map_get, inherited.
  destruct (referenceMap filterOptions d !! toLowerCase v) as [c|]; simpl.
  - by destruct (String.eqb c "").
  - by destruct (bool_decide (toLowerCase v ∈ objectPrototype)).
Qed.

(** The callback of the removal is the callback of the application. *)
Lemma mappingFn_restoreCasing (d : Dimension) (val : JsVal) (w : World) :
  (mapped <- mappingFn filterOptions d val ;; ret (js_or mapped val)) w
  = restoreCasing filterOptions d val w.
Proof.
  unfold mappingFn, restoreCasing, bind, ret, call_toLowerCase.
  by destruct val.
Qed.

(** A raw value that a canonical value matches, case apart, becomes a
    canonical value of that spelling. *)
Lemma restoreCasing_canonical (d : Dimension) (v c : string) (w : World) :
  c ∈ canonical filterOptions d -> toLowerCase c = toLowerCase v ->
  (forall c', c' ∈ canonical filterOptions d -> c' <> "") ->
  exists c', c' ∈ canonical filterOptions d
             /\ toLowerCase c' = toLowerCase v
             /\ restoreCasing filterOptions d (JStr v) w = (Returned (JStr c'), w).
Proof.
  intros Hc Hk Hne. rewrite restoreCasing_string.
  destruct (referenceMap filterOptions d !! toLowerCase v) as [c'|] eqn:Hl.
  - apply fromEntries_Some in Hl as [Hin Hk']. exists c'. repeat split; [done..|].
    destruct (String.eqb_spec c' ""); [by apply Hne in Hin | done].
  - exfalso. eapply fromEntries_None in Hl; [|exact Hc]. done.
Qed.

(** A raw value that no canonical value matches is passed through, unless
    its lower-cased spelling is a name of [Object.prototype]. *)
Lemma restoreCasing_fallback (d : Dimension) (v : string) (w : World) :
  (forall c, c ∈ canonical filterOptions d -> toLowerCase c <> toLowerCase v) ->
  toLowerCase v ∉ objectPrototype ->
  restoreCasing filterOptions d (JStr v) w = (Returned (JStr v), w).
Proof.
  intros Hno Hproto. rewrite restoreCasing_string.
  apply fromEntries_None in Hno. unfold referenceMap. rewrite Hno.
  by rewrite bool_decide_eq_false_2.
Qed.

(** And when it is such a name, what comes back is the inherited member. *)
Lemma restoreCasing_inherited (d : Dimension) (v : string) (w : World) :
  (forall c, c ∈ canonical filterOptions d -> toLowerCase c <> toLowerCase v) ->
  toLowerCase v ∈ objectPrototype ->
  restoreCasing filterOptions d (JStr v) w = (Returned (JNative (toLowerCase v)), w).
Proof.
  intros Hno Hproto. rewrite restoreCasing_string.
  apply fromEntries_None in Hno. unfold referenceMap. rewrite Hno.
  by rewrite bool_decide_eq_true_2.
Qed.

(** X19. Normalising twice is normalising once, unless the lower-cased
    spelling of the raw value is a name of [Object.prototype] that no
    canonical value has. *)
Lemma restoreCasing_idempotent (d : Dimension) (v : string) (w : World) :
  toLowerCase v ∉ objectPrototype
  \/ (exists c, c ∈ canonical filterOptions d /\ toLowerCase c = toLowerCase v) ->
  (once <- restoreCasing filterOptions d (JStr v) ;; restoreCasing filterOptions d once) w
  = restoreCasing filterOptions d (JStr v) w.
Proof.
  intros H. unfold bind at 1. rewrite restoreCasing_string.
  destruct (referenceMap filterOptions d !! toLowerCase v) as [c|] eqn:Hl.
  - destruct (String.eqb_spec c "") as [->|Hne].
    + rewrite restoreCasing_string, Hl. reflexivity.
    + pose proof (fromEntries_Some _ _ _ Hl) as [Hin Hk].
      rewrite restoreCasing_string, Hk, Hl.
      destruct (String.eqb_spec c ""); done.
  - destruct H as [Hproto|(c & Hin & Hk)].
    + rewrite bool_decide_eq_false_2 by done.
      rewrite restoreCasing_string, Hl. by rewrite bool_decide_eq_false_2.
    + exfalso. eapply fromEntries_None in Hl; [|exact Hin]. done.
Qed.

(** On an array of strings the normaliser returns an array of as many
    values: it does not throw and drops nothing. *)
Lemma call_map_restoreCasing_strings (d : Dimension) (raw : list string) (w : World) :
  exists normalized,
    call_map (JArr (map JStr raw)) (restoreCasing filterOptions d) w
      = (Returned (JArr normalized), w)
    /\ length normalized = length raw.
Proof.
  unfold call_map.
  assert (exists normalized,
            mapM (restoreCasing filterOptions d) (map JStr raw) w = (Returned normalized, w)
            /\ length normalized = length raw) as (normalized & Hm & Hl).
  { induction raw as [|v raw IH]; simpl.
    - by exists [].
    - destruct IH as (normalized & Hm & Hl).
      unfold bind at 1. rewrite restoreCasing_string.
      unfold bind at 1. rewrite Hm. eexists (_ :: normalized).
      split; [reflexivity | simpl; by rewrite Hl]. }
  exists normalized. unfold bind. by rewrite Hm.
Qed.

End Normalizer.

(** *** The filter removal on well-typed answers *)

Section Removal.
Context `{rt : JsRuntime}.
Variable filterOptions : FilterOptions.t.
Variable gateway : Gateway.

Lemma nonEmpty_array (l : list JsVal) (w : World) :
  nonEmpty (JArr l) w = (Returned (match l with [] => false | _ :: _ => true end), w).
Proof.
  unfold nonEmpty. cbn [truthy].
  erewrite bind_Returned by reflexivity.
  unfold ret. f_equal. f_equal. destruct l; [done|].
  change (String.eqb "length" "length") with true. cbn [gt_zero length].
  apply Z.ltb_lt. lia.
Qed.

(** The removal of a dimension whose list is an array of strings: nothing
    happens for the empty array, and the normalised values are removed
    otherwise. *)
Lemma processFilterRemoval_strings (d : Dimension) (raw : list string)
    (tracked : bool * list string) (w : World) :
  exists tracked' w',
    processFilterRemoval (key d) (JArr (map JStr raw)) (mappingFn filterOptions d) tracked w
      = (Returned tracked', w')
    /\ (fst tracked' = true \/ (tracked' = tracked /\ w' = w)).
Proof.
  unfold processFilterRemoval.
  erewrite bind_Returned by apply nonEmpty_array.
  destruct raw as [|v raw]; [eexists _, _; split; [reflexivity | auto]|].
  cbn [map].
  destruct (call_map_restoreCasing_strings filterOptions d (v :: raw) w)
    as (normalized & Hc & _).
  assert (call_map (JArr (map JStr (v :: raw)))
            (fun val => mapped <- mappingFn filterOptions d val ;; ret (js_or mapped val)) w
          = (Returned (JArr normalized), w)) as Hc'.
  { rewrite <- Hc. unfold call_map, bind at 1 3.
    rewrite (mapM_ext _ (restoreCasing filterOptions d))
      by (intros; apply mappingFn_restoreCasing).
    reflexivity. }
  erewrite bind_Returned by exact Hc'.
  eexists _, _. split; [reflexivity|]. by left.
Qed.

Lemma removeDimension_well_typed (fields : list (string * JsVal)) (d : Dimension)
    (tracked : bool * list string) (w : World) :
  (own_property fields (key d) = None
   \/ exists raw, own_property fields (key d) = Some (JArr (map JStr raw))) ->
  exists tracked' w',
    removeDimension filterOptions (JObj fields) tracked d w = (Returned tracked', w')
    /\ (fst tracked' = true \/ (tracked' = tracked /\ w' = w)).
Proof.
  intros H. unfold removeDimension.
  erewrite bind_Returned by reflexivity.
  destruct H as [->|(raw & ->)].
  - rewrite inherited_key. exists tracked, w. split; [reflexivity | auto].
  - apply processFilterRemoval_strings.
Qed.

Lemma foldM_removeDimension_well_typed (fields : list (string * JsVal))
    (ds : list Dimension) (tracked : bool * list string) (w : World) :
  (forall d, own_property fields (key d) = None
             \/ exists raw, own_property fields (key d) = Some (JArr (map JStr raw))) ->
  exists tracked' w',
    foldM (removeDimension filterOptions (JObj fields)) tracked ds w = (Returned tracked', w')
    /\ (fst tracked' = true \/ (tracked' = tracked /\ w' = w)).
Proof.
  intros H. revert tracked w. induction ds as [|d ds IH]; intros tracked w; simpl.
  - exists tracked, w. auto.
  - destruct (removeDimension_well_typed fields d tracked w (H d)) as (t1 & w1 & Hr & Hc).
    erewrite bind_Returned by exact Hr.
    destruct (IH t1 w1) as (t2 & w2 & Hf & Hc2).
    exists t2, w2. split; [done|].
    destruct Hc2 as [?|[-> ->]]; [by left | exact Hc].
Qed.

(** X18. On an answer whose lists are well typed the filter removal fails
    closed: it returns [true], or it returns [false] having only called the
    Gateway. *)
Lemma handleRemoveFilters_well_typed (transcript response : string)
    (parsedRemoval : JsVal) (w : World) :
  let request := mkRequest removeFilterCommand (filterSubstitutions filterOptions transcript) in
  let run := handleRemoveFilters filterOptions gateway transcript w in
  gateway (length (gatewayCalls w)) request = Some response ->
  JSON_parse (trim (stripFences response)) = Some parsedRemoval ->
  well_typed_removal parsedRemoval ->
  result_of run = Returned true
  \/ run = (Returned false, record_call request w).
Proof.
  intros request run Hgw Hparse (fields & -> & Hwt).
  assert (exists handled w',
            run = (Returned handled, w')
            /\ (handled = true \/ (handled = false /\ w' = record_call request w)))
    as (handled & w' & Hrun & Hc).
  { subst run. unfold handleRemoveFilters.
    assert (generateContent gateway removeFilterCommand
              (filterSubstitutions filterOptions transcript) w
            = (Returned response, record_call request w)) as Hcall.
    { unfold generateContent. fold request. by rewrite Hgw. }
    unfold try_catch at 1. erewrite bind_Returned by exact Hcall. cbv zeta.
    unfold try_catch.
    erewrite bind_Returned by (unfold parse; rewrite Hparse; reflexivity).
    erewrite bind_Returned by reflexivity.
    destruct (truthy _); cbn [negb]; [|eexists _, _; split; [reflexivity | auto]].
    destruct (foldM_removeDimension_well_typed fields dimensions (false, [])
                (record_call request w) Hwt) as (t1 & w1 & Hfold & Hc).
    erewrite bind_Returned by exact Hfold.
    erewrite bind_Returned by reflexivity.
    destruct (is_true _).
    - eexists _, _. split; [reflexivity | auto].
    - erewrite bind_Returned by reflexivity.
      destruct Hc as [Ht|[-> ->]].
      + rewrite Ht. eexists _, _. split; [reflexivity | auto].
      + eexists _, _. split; [reflexivity | auto]. }
  rewrite Hrun. destruct Hc as [->|[-> ->]]; [by left | by right].
Qed.

End Removal.

(** *** The failure counter *)

Lemma after_events_snoc (es : list CounterEvent) (e : CounterEvent) (w : World) :
  after_events (es ++ [e]) w = counter_step e (after_events es w).
Proof. unfold after_events. by rewrite foldl_app. Qed.

Lemma failures_snoc (es : list CounterEvent) (e : CounterEvent) :
  failures (es ++ [e]) = (failures es + if is_failure e then 1 else 0)%nat.
Proof.
  unfold failures. rewrite filter_app, length_app. f_equal.
  destruct (is_failure e) eqn:He.
  - rewrite filter_cons_True by done. reflexivity.
  - rewrite filter_cons_False by congruence. reflexivity.
Qed.

(** The counter never exceeds the failures logged since the last success. *)
Lemma counter_bounded_by_streak (es : list CounterEvent) (w0 : World) :
  consecutiveErrors w0 = O ->
  exists earlier streak,
    es = earlier ++ streak
    /\ (forall e, e ∈ streak -> is_success e = false)
    /\ (consecutiveErrors (after_events es w0) <= failures streak)%nat.
Proof.
  intros H0. induction es as [|e es IH] using rev_ind.
  - exists [], []. repeat split; [set_solver | simpl; lia].
  - destruct IH as (earlier & streak & -> & Hs & Hle).
    rewrite after_events_snoc.
    destruct e as [action [|]|rendered].
    + exists ((earlier ++ streak) ++ [Logged action true]), [].
      rewrite app_nil_r. repeat split; [set_solver | simpl; lia].
    + exists earlier, (streak ++ [Logged action false]).
      rewrite app_assoc. repeat split.
      * intros e [He|He]%elem_of_app; [by apply Hs|].
        apply list_elem_of_singleton in He. by subst.
      * rewrite failures_snoc. simpl. lia.
    + exists earlier, (streak ++ [Recovery rendered]).
      rewrite app_assoc. repeat split.
      * intros e [He|He]%elem_of_app; [by apply Hs|].
        apply list_elem_of_singleton in He. by subst.
      * rewrite failures_snoc. simpl. unfold handleRecovery, world_of.
        repeat case_match; simpl; lia.
Qed.



(** *** The claims on the interpreters *)

Section Claims.
Context `{rt : JsRuntime}.
Variable products : list Product.t.
Variable filterOptions : FilterOptions.t.
Variable gateway : Gateway.
Variable renderedErrors : nat.

(** C1. For every utterance: when the Gateway call of
    [interpretFilterCommand] fails, or when its response, the fences
    stripped, does not parse as JSON, [interpretFilterCommand] returns
    "unknown" and the only thing it has done is the call: nothing was written
    to a collaborator, so [updateFilters] was not called. *)
Theorem C1_filter_command_fails_closed (transcript : string) (w : World) :
  let request := mkRequest filterCommand (filterSubstitutions filterOptions transcript) in
  (gateway (length (gatewayCalls w)) request = None
   \/ exists response,
        gateway (length (gatewayCalls w)) request = Some response
        /\ JSON_parse (trim (stripFences response)) = None) ->
  interpretFilterCommand filterOptions gateway transcript w
    = (Returned "unknown", record_call request w)
  /\ external (record_call request w) = external w.
Proof.
  intros request H. split; [|reflexivity].
  unfold interpretFilterCommand, generateContent, try_catch, bind, parse. fold request.
  destruct H as [->|(response & -> & ->)]; reflexivity.
Qed.

(** C5. When the order-completion classifier answers "yes": on the payment
    page with the six fields (card number, expiry, CVV, name, email, address)
    set in the stored profile, the submit control is clicked, and the
    confirmation page is navigated to only when there is no such control;
    off the payment page, or with one of the six fields missing, the payment
    page is navigated to. The interpreter returns [true] in every case. *)
Theorem C5_order_completion (transcript text : string) (w : World) :
  let request := mkRequest orderCompletion [("{transcript}", transcript)] in
  gateway (length (gatewayCalls w)) request = Some text ->
  toLowerCase (trim text) = "yes" ->
  let run := handleOrderCompletion gateway transcript w in
  let onPaymentPage := pathname w = "/payment" in
  let complete := profile_complete (storedUserInfo w) = true in
  result_of run = Returned true
  /\ (onPaymentPage -> complete -> submitButton w = true ->
      effects (world_of run) = effects w ++ [Click SubmitButton]
      /\ pathname (world_of run) = "/payment")
  /\ (onPaymentPage -> complete -> submitButton w = false ->
      effects (world_of run) = effects w ++ [Navigate "/confirmation"]
      /\ pathname (world_of run) = "/confirmation")
  /\ (~ (onPaymentPage /\ complete) ->
      effects (world_of run) = effects w ++ [Navigate "/payment"]
      /\ pathname (world_of run) = "/payment").
Proof.
  intros request Hgw Hyes run onPaymentPage complete. subst run onPaymentPage complete.
  unfold handleOrderCompletion, generateContent, try_catch, bind, submitOrder, getUserInfo,
    setLastAction, navigate, click, gets, modify, ret.
  fold request. rewrite Hgw, Hyes.
  change (String.eqb "yes" "yes") with true.
  do 2 cbn -[hasRequiredInfo profile_complete String.eqb].
  destruct (String.eqb_spec (pathname w) "/payment") as [Hp|Hp];
    do 2 cbn -[hasRequiredInfo profile_complete].
  - rewrite hasRequiredInfo_complete.
    destruct (profile_complete (storedUserInfo w)) eqn:Hc;
      do 2 cbn -[profile_complete].
    + destruct (submitButton w) eqn:Hs; cbn -[profile_complete];
        repeat split; intros; try congruence; tauto.
    + repeat split; intros; try congruence; tauto.
  - repeat split; intros; try congruence; tauto.
Qed.

(** C6. For every utterance that contains one of the eight filter-clearing
    phrases as a substring, [interpretCommand] returns "clearFilters" and
    leaves the world as it was: no Gateway call is made, whatever the
    Gateway would have answered. *)
Theorem C6_clear_filter_fast_path (transcript phrase before after : string) (w : World) :
  phrase ∈ clearFilterPhrases ->
  transcript = before +:+ phrase +:+ after ->
  interpretCommand gateway transcript w = (Returned "clearFilters", w).
Proof.
  intros Hin Ht.
  assert (existsb (fun p => includes transcript p) clearFilterPhrases = true) as Hex.
  { apply existsb_exists. exists phrase. split.
    - by apply list_elem_of_In.
    - apply includes_spec. eauto. }
  unfold interpretCommand, try_catch. rewrite Hex. reflexivity.
Qed.

(** C7, as amended. [handleProductDetailNavigation] returns [false] without
    navigating when the Gateway call fails or the classifier answers "none"
    (case apart). Otherwise the lower-cased answer is the reference, and the
    catalog is searched by three strategies in this order: (1) a name equal
    to the reference, case apart; (2) a name that contains the reference or
    that the reference contains; (3) for the words of the reference longer
    than 3 characters, in their order, a name that contains the word. The
    first product of the catalog that the first successful strategy matches
    is navigated to, and [true] is returned; when no strategy matches,
    [false] is returned and nothing is navigated to. *)
Theorem C7_product_reference_resolution (transcript : string) (w : World) :
  let request :=
    mkRequest productDetailNavigation
      [("{transcript}", transcript); ("{productList}", productListText products)] in
  let run := handleProductDetailNavigation products gateway transcript w in
  let asked := record_call request w in
  match gateway (length (gatewayCalls w)) request with
  | None => run = (Returned false, asked)
  | Some text =>
      let reference := toLowerCase (trim text) in
      if String.eqb reference "none" then run = (Returned false, asked)
      else
        (exists p,
            Resolves products reference p
            /\ run = (Returned true,
                      set_pathname ("/product/" +:+ Product.id p)
                        (emit (Navigate ("/product/" +:+ Product.id p)) asked)))
        \/ (Unresolved products reference /\ run = (Returned false, asked))
  end.
Proof.
  intros request run asked. subst run asked.
  unfold handleProductDetailNavigation, generateContent, try_catch, bind, navigate, modify, ret.
  fold request.
  destruct (gateway (length (gatewayCalls w)) request) as [text|]; [|reflexivity].
  cbv zeta.
  destruct (String.eqb (toLowerCase (trim text)) "none") eqn:Hnone; [reflexivity|].
  cbn [negb].
  destruct (resolveProduct products (toLowerCase (trim text))) as [p|] eqn:Hr.
  - left. exists p. split; [by apply resolveProduct_Some | reflexivity].
  - right. split; [by apply resolveProduct_None | reflexivity].
Qed.

(** C10. Whenever the primary classifier answers the category
    "clear_filters", [handleVoiceCommand] clears the filters and logs the
    command as handled, whatever the command is: the clearing is the one
    write to a collaborator, the classification is the one Gateway call, and
    the failure counter is 0 afterwards. *)
Theorem C10_clear_filters_category (command text : string) (w : World) :
  let request := mkRequest masterIntentClassifier [("{transcript}", command)] in
  gateway (length (gatewayCalls w)) request = Some text ->
  trim text = "clear_filters" ->
  let run := handleVoiceCommand products filterOptions gateway renderedErrors command w in
  result_of run = Returned tt
  /\ effects (world_of run) = effects w ++ [ClearFilters]
  /\ gatewayCalls (world_of run) = gatewayCalls w ++ [request]
  /\ head (actionLog (world_of run))
     = Some ("Successfully handled " +:+ quoted command +:+ " (clear_filters)", true)
  /\ consecutiveErrors (world_of run) = O
  /\ pathname (world_of run) = pathname w
  /\ storedUserInfo (world_of run) = storedUserInfo w.
Proof.
  intros request Hgw Htrim run. subst run.
  unfold handleVoiceCommand, classifyPrimaryIntent, generateContent, try_catch, bind,
    logAction, setLastAction, modify, ret.
  cbn [gatewayCalls set_lastAction set_log].
  fold request. rewrite Hgw. rewrite Htrim.
  unfold routeIntent. cbn.
  repeat split.
Qed.

End Claims.

(* ===================================================================== *)
(** ** The claims at concrete inputs *)
(* ===================================================================== *)


(** The Gateway answers a filter command with text that is no JSON. *)
Lemma C1_filter_command_fails_closed_witness :
  let w := initialWorld "/products/gym" noUserInfo false in
  let request :=
    mkRequest filterCommand (filterSubstitutions exampleFilterOptions "show me red shoes") in
  interpretFilterCommand (rt := ascii_runtime) exampleFilterOptions
    (always "Sorry, I did not get that") "show me red shoes" w
    = (Returned "unknown", record_call request w)
  /\ external (record_call request w) = external w.
Proof.
  intros w request.
  apply (C1_filter_command_fails_closed (rt := ascii_runtime) exampleFilterOptions
           (always "Sorry, I did not get that") "show me red shoes" w).
  right. exists "Sorry, I did not get that". split; reflexivity.
Defined.

(** "place my order" on the payment page, the profile complete and the
    submit control there: the control is clicked and nothing is navigated
    to. *)
Lemma C5_order_completion_witness :
  let w := initialWorld "/payment" completeUserInfo true in
  let run :=
    handleOrderCompletion (rt := ascii_runtime) (always "Yes") "place my order" w in
  result_of run = Returned true
  /\ effects (world_of run) = [Click SubmitButton]
  /\ pathname (world_of run) = "/payment".
Proof.
  intros w run.
  destruct (C5_order_completion (rt := ascii_runtime) (always "Yes") "place my order" "Yes" w
              eq_refl eq_refl) as (Hresult & Hsubmit & _ & _).
  split; [exact Hresult|]. apply Hsubmit; reflexivity.
Defined.

(** "please clear filters now" with a Gateway that cannot be reached. *)
Lemma C6_clear_filter_fast_path_witness :
  let w := initialWorld "/products/gym" noUserInfo false in
  interpretCommand (rt := ascii_runtime) unreachable "please clear filters now" w
    = (Returned "clearFilters", w).
Proof.
  intros w.
  apply (C6_clear_filter_fast_path (rt := ascii_runtime) unreachable
           "please clear filters now" "clear filter" "please " "s now" w).
  - unfold clearFilterPhrases. apply list_elem_of_here.
  - reflexivity.
Defined.

(** The classifier answers "clear_filters" to a command that does not speak
    of filters. *)
Lemma C10_clear_filters_category_witness :
  let w := initialWorld "/products/gym" noUserInfo false in
  let run :=
    handleVoiceCommand (rt := ascii_runtime) exampleProducts exampleFilterOptions
      (always "clear_filters ") O "what a lovely day" w in
  effects (world_of run) = [ClearFilters]
  /\ length (gatewayCalls (world_of run)) = 1%nat
  /\ consecutiveErrors (world_of run) = O.
Proof.
  intros w run.
  destruct (C10_clear_filters_category (rt := ascii_runtime) exampleProducts
              exampleFilterOptions (always "clear_filters ") O "what a lovely day"
              "clear_filters " w eq_refl eq_refl)
    as (_ & Heffects & Hcalls & _ & Hcounter & _).
  fold run in Heffects, Hcalls, Hcounter.
  split; [exact Heffects|]. split; [by rewrite Hcalls | exact Hcounter].
Defined.

(** C7, as the claim states it, fails. The catalog holds "Running Shoes" and
    "Yoga Mats"; the keywords of the claim, the words of a catalog name longer
    than 3 characters, are "running", "shoes", "yoga" and "mats".
    - The classifier answers "Shoe rack": no keyword occurs in the reference
      or is one of its words, so the resolution of the claim finds nothing;
      the source takes the words of the reference, finds "shoe" in "running
      shoes" and navigates to that product.
    - The classifier answers "Red mat": should a keyword overlap by
      containing a word of the reference, "mats" does, and the resolution of
      the claim finds "Yoga Mats"; the reference has no word longer than 3
      characters, and the source returns [false] without navigating. *)
Lemma C7_catalog_words_counterexample :
  let w := initialWorld "/" noUserInfo false in
  let run answer :=
    handleProductDetailNavigation (rt := ascii_runtime) exampleProducts
      (always answer) "open it" w in
  let spec := spec_resolveProduct (rt := ascii_runtime) exampleProducts in
  (spec occurs_in "shoe rack" = None
   /\ spec is_word_of "shoe rack" = None
   /\ result_of (run "Shoe rack") = Returned true
   /\ effects (world_of (run "Shoe rack")) = [Navigate "/product/1"])
  /\ (option_map Product.name (spec contains_word_of "red mat") = Some "Yoga Mats"
      /\ result_of (run "Red mat") = Returned false
      /\ effects (world_of (run "Red mat")) = []).
Proof. vm_compute. repeat split. Qed.

(** C2 at the raw value "constructor", which no colour of the catalog
    matches: [colorMap] is a plain object, so [colorMap["constructor"]] is
    the function it inherits from [Object.prototype]; the function is truthy
    and takes the place of the raw value, in the filters that are applied and
    in the filters that are removed. *)
Lemma C2_inherited_name_replaces_raw_value :
  let w := initialWorld "/products/gym" noUserInfo false in
  let colors := json_member "colors" (json_array [json_string "constructor"]) in
  restoreCasing (rt := ascii_runtime) exampleFilterOptions Colors (JStr "constructor") w
    = (Returned (JNative "constructor"), w)
  /\ effects (world_of
       (interpretFilterCommand (rt := ascii_runtime) exampleFilterOptions
          (always (json_object [colors])) "show constructor colour" w))
     = [UpdateFilters [("colors", JArr [JNative "constructor"])]]
  /\ effects (world_of
       (handleRemoveFilters (rt := ascii_runtime) exampleFilterOptions
          (always (json_object [json_member "isRemoveFilter" "true"; colors]))
          "remove constructor colour" w))
     = [RemoveFilter "colors" (JArr [JNative "constructor"])].
Proof. vm_compute. repeat split. Qed.

(** C9 at the raw value "constructor": normalising it once yields the
    inherited function, and normalising that throws, a function having no
    [toLowerCase]. *)
Lemma C9_normalizing_twice_throws_at_inherited_name :
  let w := initialWorld "/products/gym" noUserInfo false in
  let normalize := restoreCasing (rt := ascii_runtime) exampleFilterOptions Colors in
  normalize (JStr "constructor") w = (Returned (JNative "constructor"), w)
  /\ (once <- normalize (JStr "constructor") ;; normalize once) w = (Thrown, w).
Proof. vm_compute. repeat split. Qed.

(** C4 at a removal answer whose "sizes" is a string and not an array: the
    colours are removed first, then [valuesToRemove.map] raises a
    [TypeError], the interpreter catches it and returns [false], and the
    dispatcher logs that no handler processed the command, the filter store
    having been written to. *)
Lemma C4_partial_removal_is_reported_unhandled :
  let w := initialWorld "/products/gym" noUserInfo false in
  let answer :=
    json_object [ json_member "isRemoveFilter" "true";
                  json_member "colors" (json_array [json_string "red"]);
                  json_member "sizes" (json_string "M") ] in
  let run :=
    handleVoiceCommand (rt := ascii_runtime) exampleProducts exampleFilterOptions
      (classified "remove_filter" answer) O "remove red and medium" w in
  head (actionLog (world_of run))
    = Some ("No handler processed: " +:+ quoted "remove red and medium", false)
  /\ consecutiveErrors (world_of run) = 1%nat
  /\ effects w = []
  /\ effects (world_of run) = [RemoveFilter "colors" (JArr [JStr "Red"])].
Proof. vm_compute. repeat split. Qed.

(** C8 at the tag "wishlist" on a product page: nothing is done, as for the
    tag "none", but the interpreter returns [true] where it returns [false]
    for "none". *)
Lemma C8_unknown_tag_is_reported_handled :
  let w := initialWorld "/product/1" noUserInfo false in
  let answer tag := json_object [json_member "action" (json_string tag)] in
  let run tag :=
    handleProductActions (rt := ascii_runtime) exampleProducts (always (answer tag))
      "save it for later" w in
  result_of (run "none") = Returned false
  /\ effects (world_of (run "none")) = []
  /\ result_of (run "wishlist") = Returned true
  /\ effects (world_of (run "wishlist")) = [].
Proof. vm_compute. repeat split. Qed.

(* ===================================================================== *)
(** ** Runs of the dispatcher *)
(* ===================================================================== *)

(** "clear all filters", classified as a general command: the phrase is
    found, the filters are cleared and the only Gateway call is the
    classification. *)
Example run_clear_all_filters :
  let w := initialWorld "/products/gym" noUserInfo false in
  let run :=
    handleVoiceCommand (rt := ascii_runtime) exampleProducts exampleFilterOptions
      (classified "general_command" "unknown") O "clear all filters" w in
  effects (world_of run) = [ClearFilters]
  /\ length (gatewayCalls (world_of run)) = 1%nat
  /\ consecutiveErrors (world_of run) = O.
Proof. vm_compute. repeat split. Qed.

(** "show me yoga mats", classified as a category navigation: the yoga page
    is navigated to and, the filter answer holding no filter, nothing is
    applied. *)
Example run_show_me_yoga_mats :
  let w := initialWorld "/" noUserInfo false in
  let gateway : Gateway :=
    fun n _ =>
      match n with
      | O => Some "category_navigation"
      | S O => Some "yoga"
      | _ => Some (json_object [])
      end in
  let run :=
    handleVoiceCommand (rt := ascii_runtime) exampleProducts exampleFilterOptions
      gateway O "show me yoga mats" w in
  effects (world_of run) = [Navigate "/products/yoga"]
  /\ pathname (world_of run) = "/products/yoga"
  /\ consecutiveErrors (world_of run) = O.
Proof. vm_compute. repeat split. Qed.

(** "blue ones in medium", classified as a filter application: the values
    are given the casing of the catalog and applied in one call. *)
Example run_apply_filters :
  let w := initialWorld "/products/gym" noUserInfo false in
  let answer :=
    "```json" +:+
    json_object [ json_member "colors" (json_array [json_string "BLUE"]);
                  json_member "sizes" (json_array [json_string "m"; json_string "xxl"]) ]
    +:+ "```" in
  let run :=
    handleVoiceCommand (rt := ascii_runtime) exampleProducts exampleFilterOptions
      (classified "apply_filter" answer) O "blue ones in medium" w in
  effects (world_of run)
    = [UpdateFilters [ ("colors", JArr [JStr "Blue"]);
                       ("sizes", JArr [JStr "M"; JStr "xxl"]) ]]
  /\ consecutiveErrors (world_of run) = O.
Proof. vm_compute. repeat split. Qed.

(** A filter answer that is no JSON: nothing is applied and the command is
    logged as a failure. *)
Example run_unparsable_filter_answer :
  let w := initialWorld "/products/gym" noUserInfo false in
  let run :=
    handleVoiceCommand (rt := ascii_runtime) exampleProducts exampleFilterOptions
      (classified "apply_filter" "I am not sure") O "something blue" w in
  effects (world_of run) = []
  /\ consecutiveErrors (world_of run) = 1%nat
  /\ head (actionLog (world_of run))
     = Some ("No handler processed: " +:+ quoted "something blue", false).
Proof. vm_compute. repeat split. Qed.

(** A category the dispatcher does not know: nothing is done and the command
    is logged as a failure. *)
Example run_unknown_category :
  let w := initialWorld "/products/gym" noUserInfo false in
  let run :=
    handleVoiceCommand (rt := ascii_runtime) exampleProducts exampleFilterOptions
      (always "small_talk") O "how are you" w in
  external (world_of run) = external w
  /\ consecutiveErrors (world_of run) = 1%nat.
Proof. vm_compute. repeat split. Qed.

(** The exact match has priority: "Yoga Mats" is a partial match of the
    reference "yoga mats pro" and comes first in the catalog, and the product
    of that very name is the one resolved. *)
Example resolve_exact_before_partial :
  let catalog :=
    exampleProducts ++ [Product.mk "3" "Yoga Mats Pro" "Thicker mats" ["One Size"]] in
  option_map Product.id (resolveProduct (rt := ascii_runtime) catalog "yoga mats pro")
    = Some "3"
  /\ option_map Product.id (partialMatch (rt := ascii_runtime) catalog "yoga mats pro")
     = Some "2".
Proof. vm_compute. repeat split. Qed.

(* ===================================================================== *)
(** ** Further properties of the component *)
(* ===================================================================== *)

(** *** Frames *)

Section FrameRules.
Context {A B C : Type} (f : World -> C).

Lemma Keeps_ret (a : A) : Keeps f (ret a).
Proof. by intros w. Qed.

Lemma Keeps_throw : Keeps f (@throw A).
Proof. by intros w. Qed.

Lemma Keeps_gets (g : World -> A) : Keeps f (gets g).
Proof. by intros w. Qed.

Lemma Keeps_bind (m : M A) (k : A -> M B) :
  Keeps f m -> (forall a, Keeps f (k a)) -> Keeps f (bind m k).
Proof.
  intros Hm Hk w. specialize (Hm w). unfold bind, world_of in *.
  destruct (m w) as [[a|] w']; simpl in *; [|done].
  rewrite <- Hm. apply Hk.
Qed.

Lemma Keeps_try_catch (body handler : M A) :
  Keeps f body -> Keeps f handler -> Keeps f (try_catch body handler).
Proof.
  intros Hb Hh w. specialize (Hb w). unfold try_catch, world_of in *.
  destruct (body w) as [[a|] w']; simpl in *; [done|].
  rewrite <- Hb. apply Hh.
Qed.

End FrameRules.

Section FrameLists.
Context {A B C : Type} (f : World -> C).

Lemma Keeps_mapM (g : A -> M B) (l : list A) :
  (forall a, Keeps f (g a)) -> Keeps f (mapM g l).
Proof.
  intros Hg. induction l as [|a l IH]; simpl; [apply Keeps_ret|].
  apply Keeps_bind; [apply Hg|]. intros b.
  apply Keeps_bind; [apply IH|]. intros bs. by intros w.
Qed.

Lemma Keeps_findM (g : A -> M bool) (l : list A) :
  (forall a, Keeps f (g a)) -> Keeps f (findM g l).
Proof.
  intros Hg. induction l as [|a l IH]; simpl; [by intros w|].
  apply Keeps_bind; [apply Hg|]. intros [|]; [by intros w | apply IH].
Qed.

Lemma Keeps_foldM (g : A -> B -> M A) (a : A) (l : list B) :
  (forall a b, Keeps f (g a b)) -> Keeps f (foldM g a l).
Proof.
  intros Hg. revert a. induction l as [|b l IH]; intros a; simpl; [by intros w|].
  apply Keeps_bind; [apply Hg | apply IH].
Qed.

End FrameLists.

Section FrameReads.
Context `{rt : JsRuntime} {C : Type} (f : World -> C).

Lemma Keeps_get_prop (v : JsVal) (k : string) : Keeps f (get_prop v k).
Proof. unfold get_prop. destruct v; by intros w. Qed.

Lemma Keeps_parse (text : string) : Keeps f (parse text).
Proof. unfold parse. destruct (JSON_parse text); by intros w. Qed.

Lemma Keeps_call_toLowerCase (v : JsVal) : Keeps f (call_toLowerCase v).
Proof. unfold call_toLowerCase. destruct v; by intros w. Qed.

Lemma Keeps_call_map (v : JsVal) (g : JsVal -> M JsVal) :
  (forall a, Keeps f (g a)) -> Keeps f (call_map v g).
Proof.
  intros Hg. unfold call_map. destruct v; try by intros w.
  apply Keeps_bind; [by apply Keeps_mapM | by intros ? w].
Qed.

Lemma Keeps_nonEmpty (v : JsVal) : Keeps f (nonEmpty v).
Proof.
  unfold nonEmpty. destruct (truthy v); [|by intros w].
  apply Keeps_bind; [apply Keeps_get_prop | by intros ? w].
Qed.

Lemma Keeps_mergeFields (response : JsVal) table (u : UserInfo.t) (fields : list string) :
  Keeps f (mergeFields response table u fields).
Proof.
  revert u fields. induction table as [|[[k label] assign] table IH]; intros u fields; simpl.
  - by intros w.
  - apply Keeps_bind; [apply Keeps_get_prop|]. intros v. destruct (truthy v); apply IH.
Qed.

End FrameReads.

Create HintDb js_keeps.
#[local] Hint Resolve Keeps_get_prop Keeps_parse Keeps_call_toLowerCase Keeps_nonEmpty
  Keeps_mergeFields Keeps_ret Keeps_throw Keeps_gets : js_keeps.

(** [Keeps] is decided along the syntax of the code; a statement that only
    writes the world keeps [f] when the two sides compute to the same. *)
Ltac keeps :=
  repeat
    (cbv zeta;
     lazymatch goal with
     | |- Keeps _ (bind _ _) => apply Keeps_bind; [|intros ?]
     | |- Keeps _ (try_catch _ _) => apply Keeps_try_catch
     | |- Keeps _ (mapM _ _) => apply Keeps_mapM; intros ?
     | |- Keeps _ (findM _ _) => apply Keeps_findM; intros ?
     | |- Keeps _ (foldM _ _ _) => apply Keeps_foldM; intros ? ?
     | |- Keeps _ (call_map _ _) => apply Keeps_call_map; intros ?
     | |- Keeps _ (if ?c then _ else _) => destruct c
     | |- Keeps _ (match ?c with _ => _ end) => destruct c
     | |- Keeps _ _ => first [ solve [auto with js_keeps] | solve [intros ?; reflexivity] ]
     end).

Section FrameGateway.
Context `{rt : JsRuntime}.
Variable products : list Product.t.
Variable filterOptions : FilterOptions.t.
Variable gateway : Gateway.

Lemma Keeps_session_generateContent t subst :
  Keeps session (generateContent gateway t subst).
Proof. intros w. unfold generateContent. by destruct (gateway _ _). Qed.

End FrameGateway.

#[local] Hint Resolve Keeps_session_generateContent : js_keeps.

Section FrameSession.
Context `{rt : JsRuntime}.
Variable products : list Product.t.
Variable filterOptions : FilterOptions.t.
Variable gateway : Gateway.

Lemma Keeps_session_restoreCasing d c : Keeps session (restoreCasing filterOptions d c).
Proof. unfold restoreCasing. keeps. Qed.

Lemma Keeps_session_routeIntent (primaryIntent command : string) :
  Keeps session (routeIntent products filterOptions gateway primaryIntent command).
Proof.
  unfold routeIntent, handleNavigationCommand, handleOrderCompletion, handleUserInfoUpdate,
    handleCartNavigation, handleProductActions, handleProductDetailNavigation,
    handleRemoveFilters, handleCategoryNavigation, interpretFilterCommand, interpretCommand,
    generalCommand, generalCheckout, submitOrder, clickAddToCartByText, normalizeDimension,
    removeDimension, processFilterRemoval, restoreCasing, mappingFn.
  keeps.
Qed.

End FrameSession.

(** *** The Gateway calls of the interpreters *)

Lemma bind_keeps_after {A B C} (f : World -> C) (m : M A) (k : A -> M B) (w : World) :
  (forall a, Keeps f (k a)) -> f (world_of (bind m k w)) = f (world_of (m w)).
Proof.
  intros Hk. unfold bind, world_of. destruct (m w) as [[a|] w']; [apply Hk | done].
Qed.

Lemma try_catch_keeps_handler {A C} (f : World -> C) (m h : M A) (w : World) :
  Keeps f h -> f (world_of (try_catch m h w)) = f (world_of (m w)).
Proof.
  intros Hh. unfold try_catch, world_of. destruct (m w) as [[a|] w']; [done | apply Hh].
Qed.

Lemma bind_gets {A B} (f : World -> A) (k : A -> M B) (w : World) :
  bind (gets f) k w = k (f w) w.
Proof. reflexivity. Qed.

Lemma bind_returns {A B} (m : M A) (k : A -> M B) (w : World) :
  Returns anything m -> exists a w', m w = (Returned a, w') /\ bind m k w = k a w'.
Proof.
  intros Hm. destruct (Hm w) as (a & Ha & _). unfold result_of in Ha.
  destruct (m w) as [o w'] eqn:E. simpl in Ha. subst o.
  exists a, w'. split; [done|]. unfold bind. by rewrite E.
Qed.

Section Calls.
Context `{rt : JsRuntime}.
Variable products : list Product.t.
Variable filterOptions : FilterOptions.t.
Variable gateway : Gateway.

(** A computation that starts with a call of the Gateway and makes no other
    has made that one call when it ends, also when the call rejects or the
    rest throws. *)
Lemma calls_once {A} (t : PromptTemplate) (s : list (string * string))
    (k : string -> M A) (h : M A) (w : World) :
  (forall a, Keeps gatewayCalls (k a)) -> Keeps gatewayCalls h ->
  gatewayCalls (world_of (try_catch (bind (generateContent gateway t s) k) h w))
  = gatewayCalls w ++ [mkRequest t s].
Proof.
  intros Hk Hh. unfold try_catch, bind, generateContent.
  destruct (gateway _ _) as [text|].
  - specialize (Hk text (record_call (mkRequest t s) w)). unfold world_of in *.
    destruct (k text _) as [[a|] w']; simpl in *; [done|].
    rewrite <- Hk. apply Hh.
  - apply Hh.
Qed.

Lemma calls_bind {A} (t : PromptTemplate) (s : list (string * string))
    (k : string -> M A) (w : World) :
  (forall a, Keeps gatewayCalls (k a)) ->
  gatewayCalls (world_of (bind (generateContent gateway t s) k w))
  = gatewayCalls w ++ [mkRequest t s].
Proof.
  intros Hk. unfold bind, generateContent.
  destruct (gateway _ _) as [text|]; [|done].
  by rewrite Hk.
Qed.

Lemma Keeps_calls_restoreCasing d c : Keeps gatewayCalls (restoreCasing filterOptions d c).
Proof. unfold restoreCasing. keeps. Qed.

Ltac one_call := apply calls_once; [intros ?|]; keeps.

Lemma handleNavigationCommand_calls t w :
  gatewayCalls (world_of (handleNavigationCommand gateway t w))
  = gatewayCalls w ++ [mkRequest navigationCommand [("{transcript}", t)]].
Proof. unfold handleNavigationCommand. one_call. Qed.

Lemma handleOrderCompletion_calls t w :
  gatewayCalls (world_of (handleOrderCompletion gateway t w))
  = gatewayCalls w ++ [mkRequest orderCompletion [("{transcript}", t)]].
Proof. unfold handleOrderCompletion, submitOrder. one_call. Qed.

Lemma handleUserInfoUpdate_calls t w :
  gatewayCalls (world_of (handleUserInfoUpdate gateway t w))
  = gatewayCalls w ++ [mkRequest userInfoUpdate [("{transcript}", t)]].
Proof. unfold handleUserInfoUpdate. one_call. Qed.

Lemma handleCartNavigation_calls t w :
  gatewayCalls (world_of (handleCartNavigation gateway t w))
  = gatewayCalls w ++ [mkRequest cartNavigation [("{transcript}", t)]].
Proof. unfold handleCartNavigation. one_call. Qed.

Lemma handleCategoryNavigation_calls t w :
  gatewayCalls (world_of (handleCategoryNavigation gateway t w))
  = gatewayCalls w ++ [mkRequest categoryNavigation [("{transcript}", t)]].
Proof. unfold handleCategoryNavigation. one_call. Qed.

Lemma handleClearFilters_calls t w :
  gatewayCalls (world_of (handleClearFilters gateway t w))
  = gatewayCalls w ++ [mkRequest clearFiltersPrompt [("{transcript}", t)]].
Proof. unfold handleClearFilters. one_call. Qed.

Lemma handleProductDetailNavigation_calls t w :
  gatewayCalls (world_of (handleProductDetailNavigation products gateway t w))
  = gatewayCalls w
    ++ [mkRequest productDetailNavigation
          [("{transcript}", t); ("{productList}", productListText products)]].
Proof. unfold handleProductDetailNavigation. one_call. Qed.

Lemma interpretFilterCommand_calls t w :
  gatewayCalls (world_of (interpretFilterCommand filterOptions gateway t w))
  = gatewayCalls w ++ [mkRequest filterCommand (filterSubstitutions filterOptions t)].
Proof.
  unfold interpretFilterCommand, normalizeDimension, restoreCasing. one_call.
Qed.

Lemma handleRemoveFilters_calls t w :
  gatewayCalls (world_of (handleRemoveFilters filterOptions gateway t w))
  = gatewayCalls w ++ [mkRequest removeFilterCommand (filterSubstitutions filterOptions t)].
Proof.
  unfold handleRemoveFilters, removeDimension, processFilterRemoval, mappingFn. one_call.
Qed.

(** The product actions ask the Gateway on the page of a known product
    only. *)
Lemma handleProductActions_calls t w :
  let asked := gatewayCalls (world_of (handleProductActions products gateway t w)) in
  asked = gatewayCalls w
  \/ exists product,
       product ∈ products
       /\ asked = gatewayCalls w
                  ++ [mkRequest productAction
                        [ ("{productName}", Product.name product);
                          ("{sizes}", join ", " (Product.sizes product));
                          ("{transcript}", t) ]].
Proof.
  unfold handleProductActions. cbv zeta.
  rewrite try_catch_keeps_handler by keeps.
  rewrite bind_gets.
  destruct (negb (startsWith (pathname w) "/product/")); [by left|].
  destruct (find _ products) as [product|] eqn:Hfind; [|by left].
  right. exists product. split.
  { apply list_elem_of_In. by apply find_some in Hfind as [? _]. }
  apply calls_bind. intros response. unfold clickAddToCartByText. keeps.
Qed.

(** The general interpreter asks the Gateway unless a clear phrase occurs in
    the utterance. *)
Lemma interpretCommand_calls t w :
  gatewayCalls (world_of (interpretCommand gateway t w))
  = if existsb (fun phrase => includes t phrase) clearFilterPhrases
    then gatewayCalls w
    else gatewayCalls w
         ++ [mkRequest interpretCommandPrompt
               [("{transcript}", t); ("{availableFunctions}", availableFunctionsText)]].
Proof.
  unfold interpretCommand.
  destruct (existsb _ clearFilterPhrases); [done|]. one_call.
Qed.

Lemma Keeps_calls_generalCommand action : Keeps gatewayCalls (generalCommand action).
Proof. unfold generalCommand, generalCheckout, submitOrder. keeps. Qed.

Lemma carries_head t template rest :
  carries t (mkRequest template (("{transcript}", t) :: rest)).
Proof. unfold carries. simpl. set_solver. Qed.

Lemma routeIntent_calls (primaryIntent command : string) (w : World) :
  exists made,
    gatewayCalls (world_of (routeIntent products filterOptions gateway primaryIntent command w))
      = gatewayCalls w ++ made
    /\ (length made <= 2)%nat
    /\ (length made = 2%nat -> primaryIntent = "category_navigation")
    /\ (made = [] -> primaryIntent ∈ mayAnswerUnasked \/ primaryIntent ∉ knownIntents)
    /\ Forall (carries command) made.
Proof.
  unfold routeIntent.
  repeat match goal with
         | |- context [if String.eqb primaryIntent ?b then _ else _] =>
             destruct (String.eqb_spec primaryIntent b) as [->|?]
         end.
  - eexists; split; [apply handleNavigationCommand_calls|].
    repeat split; simpl; try lia; try done. repeat constructor; apply carries_head.
  - eexists; split; [apply handleOrderCompletion_calls|].
    repeat split; simpl; try lia; try done. repeat constructor; apply carries_head.
  - eexists; split; [apply handleUserInfoUpdate_calls|].
    repeat split; simpl; try lia; try done. repeat constructor; apply carries_head.
  - eexists; split.
    { rewrite bind_keeps_after by (intros; keeps). apply handleCartNavigation_calls. }
    repeat split; simpl; try lia; try done. repeat constructor; apply carries_head.
  - rewrite bind_keeps_after by (intros; keeps).
    destruct (handleProductActions_calls command w) as [->|(product & _ & ->)].
    + exists []. rewrite app_nil_r. repeat split; simpl; try lia; try done.
      left. unfold mayAnswerUnasked. set_solver.
    + eexists; split; [done|]. repeat split; simpl; try lia; try done.
      all: try (repeat constructor; unfold carries; simpl; set_solver).
  - eexists; split.
    { rewrite bind_keeps_after by (intros; keeps).
      apply handleProductDetailNavigation_calls. }
    repeat split; simpl; try lia; try done. repeat constructor; apply carries_head.
  - eexists; split; [apply handleRemoveFilters_calls|].
    repeat split; simpl; try lia; try done. repeat constructor; apply carries_head.
  - pose proof (handleCategoryNavigation_calls command w) as Hc.
    destruct (bind_returns (handleCategoryNavigation gateway command)
                (fun categoryNavigated : bool =>
                   if categoryNavigated
                   then setLastAction ("Navigating to category based on: " +:+ quoted command) ;;
                        filtersApplied <- interpretFilterCommand filterOptions gateway command ;;
                        (if String.eqb filtersApplied "filters_updated"
                         then setLastAction
                                ("Navigated to category and applied filters based on: "
                                 +:+ quoted command)
                         else ret tt) ;;
                        ret true
                   else ret false) w) as (a & w' & Hm & ->).
    { apply Returns_interpreters; assumption. }
    rewrite Hm in Hc. unfold world_of in Hc. simpl in Hc.
    destruct a.
    + eexists; split.
      { unfold bind at 1, setLastAction, modify.
        rewrite bind_keeps_after by (intros; keeps).
        rewrite interpretFilterCommand_calls. simpl. rewrite Hc, <- app_assoc. done. }
      repeat split; simpl; try lia; try done.
      repeat constructor; apply carries_head.
    + eexists; split; [apply Hc|].
      repeat split; simpl; try lia; try done. repeat constructor; apply carries_head.
  - eexists; split.
    { rewrite bind_keeps_after by (intros; keeps). apply interpretFilterCommand_calls. }
    repeat split; simpl; try lia; try done. repeat constructor; apply carries_head.
  - exists []. rewrite app_nil_r. repeat split; simpl; try lia; try done.
    left. unfold mayAnswerUnasked. set_solver.
  - rewrite bind_keeps_after by apply Keeps_calls_generalCommand.
    rewrite interpretCommand_calls.
    destruct (existsb _ clearFilterPhrases).
    + exists []. rewrite app_nil_r. repeat split; simpl; try lia; try done.
      left. unfold mayAnswerUnasked. set_solver.
    + eexists; split; [done|]. repeat split; simpl; try lia; try done.
      repeat constructor; apply carries_head.
  - exists []. rewrite app_nil_r. repeat split; simpl; try lia; try done.
    right. unfold knownIntents. set_solver.
Qed.

End Calls.

(** *** What the interpreters may do *)

Lemma Keeps_effects_generateContent gateway t subst :
  Keeps effects (generateContent gateway t subst).
Proof. intros w. unfold generateContent. by destruct (gateway _ _). Qed.

#[local] Hint Resolve Keeps_effects_generateContent : js_keeps.

Section EmitsRules.
Context {A B : Type} (P : Effect -> Prop).

Lemma Emits_keeps (m : M A) : Keeps effects m -> Emits P m.
Proof. intros H w. exists []. by rewrite H, app_nil_r. Qed.

Lemma Emits_bind (m : M A) (k : A -> M B) :
  Emits P m -> (forall a, Emits P (k a)) -> Emits P (bind m k).
Proof.
  intros Hm Hk w. destruct (Hm w) as (added & Ha & HP).
  unfold bind, world_of in *. destruct (m w) as [[a|] w']; simpl in *; [|by exists added].
  destruct (Hk a w') as (more & Hb & HQ). exists (added ++ more).
  unfold world_of in Hb. rewrite Hb, Ha, <- app_assoc. split; [done | by apply Forall_app].
Qed.

(** The continuation is run on what the first part returns. *)
Lemma Emits_bind_post (Q : A -> Prop) (m : M A) (k : A -> M B) :
  (forall w a w', m w = (Returned a, w') -> Q a) ->
  Emits P m -> (forall a, Q a -> Emits P (k a)) -> Emits P (bind m k).
Proof.
  intros HQ Hm Hk w. destruct (Hm w) as (added & Ha & HP).
  specialize (HQ w). unfold bind, world_of in *.
  destruct (m w) as [[a|] w']; simpl in *; [|by exists added].
  destruct (Hk a (HQ a w' eq_refl) w') as (more & Hb & HR). exists (added ++ more).
  unfold world_of in Hb. rewrite Hb, Ha, <- app_assoc. split; [done | by apply Forall_app].
Qed.

Lemma Emits_try_catch (body handler : M A) :
  Emits P body -> Emits P handler -> Emits P (try_catch body handler).
Proof.
  intros Hb Hh w. destruct (Hb w) as (added & Ha & HP).
  unfold try_catch, world_of in *. destruct (body w) as [[a|] w']; simpl in *;
    [by exists added|].
  destruct (Hh w') as (more & Hm & HQ). exists (added ++ more).
  unfold world_of in Hm. rewrite Hm, Ha, <- app_assoc. split; [done | by apply Forall_app].
Qed.

Lemma Emits_emit (e : Effect) : P e -> Emits P (modify (emit e)).
Proof. intros He w. exists [e]. split; [done|]. by constructor. Qed.

End EmitsRules.

Lemma Emits_foldM {A B} (P : Effect -> Prop) (g : A -> B -> M A) (a : A) (l : list B) :
  (forall a b, Emits P (g a b)) -> Emits P (foldM g a l).
Proof.
  intros Hg. revert a. induction l as [|b l IH]; intros a; simpl.
  - apply Emits_keeps. by intros w.
  - apply Emits_bind; [apply Hg | apply IH].
Qed.

Section EmitsCollaborators.
Variable P : Effect -> Prop.

Lemma Emits_navigate path : P (Navigate path) -> Emits P (navigate path).
Proof. intros He w. exists [Navigate path]. split; [done|]. by constructor. Qed.

Lemma Emits_updateUserInfo u : P (UpdateUserInfo u) -> Emits P (updateUserInfo u).
Proof. intros He w. exists [UpdateUserInfo u]. split; [done|]. by constructor. Qed.

End EmitsCollaborators.

Lemma findM_found {A} (g : A -> M bool) (l : list A) (w w' : World) (a : A) :
  findM g l w = (Returned (Some a), w') -> a ∈ l.
Proof.
  revert w. induction l as [|x l IH]; intros w; simpl.
  - by unfold ret.
  - unfold bind. destruct (g x w) as [[[|]|] w1]; [| |done].
    + unfold ret. intros [= -> _]. apply list_elem_of_here.
    + intros H. apply list_elem_of_further. by eapply IH.
Qed.

Lemma keywordMatch_in `{JsRuntime} products words p :
  keywordMatch products words = Some p -> p ∈ products.
Proof.
  induction words as [|word words IH]; simpl; [done|].
  destruct (find _ products) as [q|] eqn:Hq; [|done].
  intros [= <-]. apply list_elem_of_In. by apply find_some in Hq as [? _].
Qed.

Lemma resolveProduct_in `{JsRuntime} products productName p :
  resolveProduct products productName = Some p -> p ∈ products.
Proof.
  unfold resolveProduct, exactMatch, partialMatch.
  destruct (find _ products) as [q|] eqn:Hq.
  { intros [= <-]. apply list_elem_of_In. by apply find_some in Hq as [? _]. }
  clear Hq. destruct (find _ products) as [q|] eqn:Hq2.
  { intros [= <-]. apply list_elem_of_In. by apply find_some in Hq2 as [? _]. }
  apply keywordMatch_in.
Qed.

(** [Emits] is decided along the syntax of the code; what a test or a lookup
    has found is kept for the calls that follow it. *)
Ltac emits_leaf :=
  first
    [ apply Emits_keeps; solve [keeps]
    | apply Emits_navigate
    | apply Emits_updateUserInfo
    | apply Emits_emit ].

Ltac emits :=
  repeat
    (cbv zeta;
     lazymatch goal with
     | |- Emits _ (bind (findM _ ?l) _) =>
         apply (Emits_bind_post _ (fun found => forall a, found = Some a -> a ∈ l));
         [ intros ? ? ? ? ? ->; eapply findM_found; eassumption | | intros ? ? ]
     | |- Emits _ (bind _ _) => apply Emits_bind; [|intros ?]
     | |- Emits _ (try_catch _ _) => apply Emits_try_catch
     | |- Emits _ (foldM _ _ _) => apply Emits_foldM; intros ? ?
     | |- Emits _ (findM _ _) => apply Emits_keeps; solve [keeps]
     | |- Emits _ (if ?c then _ else _) => destruct c eqn:?
     | |- Emits _ (match ?c with _ => _ end) => destruct c eqn:?
     | |- Emits _ _ => emits_leaf
     end).

Section Whitelist.
Context `{rt : JsRuntime}.
Variable products : list Product.t.
Variable filterOptions : FilterOptions.t.
Variable gateway : Gateway.

Ltac permit :=
  cbn [permitted];
  first [ exact I | left; unfold routes; set_solver | idtac ].

Lemma Emits_handleNavigationCommand t :
  Emits (permitted products) (handleNavigationCommand gateway t).
Proof. unfold handleNavigationCommand, historyBack. emits; permit. Qed.

Lemma Emits_handleOrderCompletion t :
  Emits (permitted products) (handleOrderCompletion gateway t).
Proof. unfold handleOrderCompletion, submitOrder, click. emits; permit. Qed.

Lemma Emits_handleUserInfoUpdate t :
  Emits (permitted products) (handleUserInfoUpdate gateway t).
Proof. unfold handleUserInfoUpdate, dispatchUserInfoUpdated. emits; permit. Qed.

Lemma Emits_handleCartNavigation t :
  Emits (permitted products) (handleCartNavigation gateway t).
Proof. unfold handleCartNavigation. emits; permit. Qed.

Lemma Emits_handleCategoryNavigation t :
  Emits (permitted products) (handleCategoryNavigation gateway t).
Proof. unfold handleCategoryNavigation. emits; permit. Qed.

Lemma Emits_handleClearFilters t :
  Emits (permitted products) (handleClearFilters gateway t).
Proof. unfold handleClearFilters, clearFilters. emits; permit. Qed.

Lemma Emits_handleProductDetailNavigation t :
  Emits (permitted products) (handleProductDetailNavigation products gateway t).
Proof.
  unfold handleProductDetailNavigation. emits; permit.
  right. eexists. split; [|done]. by eapply resolveProduct_in.
Qed.

Lemma Emits_interpretFilterCommand t :
  Emits (permitted products) (interpretFilterCommand filterOptions gateway t).
Proof.
  unfold interpretFilterCommand, updateFilters. emits; permit.
  all: apply Emits_keeps; unfold normalizeDimension, restoreCasing; keeps.
Qed.

Lemma Emits_handleRemoveFilters t :
  Emits (permitted products) (handleRemoveFilters filterOptions gateway t).
Proof.
  unfold handleRemoveFilters, removeDimension, processFilterRemoval, removeFilter.
  emits; permit.
  all: apply Emits_keeps; unfold mappingFn; keeps.
Qed.

Lemma Emits_interpretCommand t :
  Emits (permitted products) (interpretCommand gateway t).
Proof. unfold interpretCommand. emits. Qed.

Lemma Emits_generalCommand action :
  Emits (permitted products) (generalCommand action).
Proof.
  unfold generalCommand, generalCheckout, submitOrder, click, clearFilters.
  emits; permit.
Qed.

Lemma Emits_handleProductActions t :
  Emits (permitted products) (handleProductActions products gateway t).
Proof.
  unfold handleProductActions, clickAddToCartByText, setSelectedSize, setQuantity, click.
  emits; permit.
  - match goal with
    | Hfind : find _ products = Some ?product |- _ =>
        exists product; apply find_some in Hfind as [Hin _]; split;
        [by apply list_elem_of_In | auto]
    end.
  - by apply Z.ltb_lt.
Qed.

Lemma Emits_routeIntent primaryIntent command :
  Emits (permitted products)
    (routeIntent products filterOptions gateway primaryIntent command).
Proof.
  pose proof Emits_handleNavigationCommand. pose proof Emits_handleOrderCompletion.
  pose proof Emits_handleUserInfoUpdate. pose proof Emits_handleCartNavigation.
  pose proof Emits_handleCategoryNavigation. pose proof Emits_handleProductDetailNavigation.
  pose proof Emits_interpretFilterCommand. pose proof Emits_handleRemoveFilters.
  pose proof Emits_interpretCommand. pose proof Emits_generalCommand.
  pose proof Emits_handleProductActions.
  unfold routeIntent, clearFilters.
  repeat
    (cbv zeta;
     lazymatch goal with
     | |- Emits _ (bind _ _) => apply Emits_bind; [|intros ?]
     | |- Emits _ (if ?c then _ else _) => destruct c
     | |- Emits _ _ => first [done | emits_leaf]
     end).
  all: permit.
Qed.

End Whitelist.

(** *** The dispatch *)

Section Dispatch.
Context `{rt : JsRuntime}.
Variable products : list Product.t.
Variable filterOptions : FilterOptions.t.
Variable gateway : Gateway.
Variable renderedErrors : nat.

(** A dispatch, step by step: the two entries and the classification, then
    the pathway of the category, then the verdict. *)
Lemma handleVoiceCommand_unfolds (command : string) (w : World) :
  let primaryIntent := primaryIntentOf gateway command w in
  let run := handleVoiceCommand products filterOptions gateway renderedErrors command w in
  exists before handled after,
    routeIntent products filterOptions gateway primaryIntent command before
      = (Returned handled, after)
    /\ external before = external w
    /\ gatewayCalls before = gatewayCalls w ++ [classification command]
    /\ lastAction before = "Processing: " +:+ quoted command
    /\ result_of run = Returned tt
    /\ external (world_of run) = external after
    /\ gatewayCalls (world_of run) = gatewayCalls after
    /\ actionLog (world_of run)
       = verdict command primaryIntent handled
         :: ("Identified primary intent: " +:+ primaryIntent, true)
         :: ("Processing command: " +:+ quoted command, true)
         :: take 17 (actionLog w)
    /\ lastAction (world_of run)
       = (if handled then lastAction after
          else "Command not recognized: " +:+ quoted command)
    /\ consecutiveErrors (world_of run) = (if handled then 0 else 1)%nat
    /\ isListening (world_of run) = isListening w
    /\ recognitionRef (world_of run) = recognitionRef w
    /\ restartsScheduled (world_of run) = restartsScheduled w.
Proof.
  intros primaryIntent run. subst primaryIntent run.
  unfold handleVoiceCommand, primaryIntentOf, classification, verdict.
  cbv [bind logAction setLastAction modify ret try_catch classifyPrimaryIntent generateContent].
  cbn [gatewayCalls set_lastAction set_log].
  set (request := mkRequest masterIntentClassifier [("{transcript}", command)]).
  destruct (gateway (length (gatewayCalls w)) request) as [text|]; cbv beta iota.
  all: match goal with
       | |- context [routeIntent products filterOptions gateway ?i ?c ?b] =>
           exists b;
           destruct (Returns_routeIntent products filterOptions gateway i c b)
             as (handled & Hh & _);
           pose proof (Keeps_session_routeIntent products filterOptions gateway i c b) as Hs;
           unfold result_of in Hh; unfold world_of, session in Hs;
           destruct (routeIntent products filterOptions gateway i c b) as [[h|] after];
           [|discriminate]
       end.
  all: exists h, after; cbn in Hs; injection Hs as Hlog Herr Hl Hr Hn.
  all: destruct h; cbn; rewrite ?Hlog, ?Hl, ?Hr, ?Hn; cbn.
  all: repeat split; try done.
  all: rewrite ?take_take, ?Herr; done.
Qed.

(** X1. A dispatch never throws. It runs the pathway of the category once,
    in the world in which the command and the category have been logged and
    the classification asked, and ends in the world the pathway left with
    the verdict logged: a success when the pathway returned [true], a
    failure, with "Command not recognized" as the status line, when it
    returned [false]. So it logs three entries, the command, the category
    and the verdict, on top of the 17 newest entries it found; the failure
    counter is 0 after a command the pathway handled and 1 after one it did
    not; the recognition is left as it was, and no restart is scheduled,
    whatever counter the render had bound: the [catch] of
    [handleVoiceCommand], and with it its call of [handleRecovery], is never
    reached. *)
Theorem handleVoiceCommand_session (command : string) (w : World) :
  let primaryIntent := primaryIntentOf gateway command w in
  let run := handleVoiceCommand products filterOptions gateway renderedErrors command w in
  exists handled after,
    routeIntent products filterOptions gateway primaryIntent command
      (classifiedWorld gateway command w) = (Returned handled, after)
    /\ run = (Returned tt, concludedWorld command primaryIntent handled after)
    /\ result_of run = Returned tt
    /\ actionLog (world_of run)
       = verdict command primaryIntent handled
         :: ("Identified primary intent: " +:+ primaryIntent, true)
         :: ("Processing command: " +:+ quoted command, true)
         :: take 17 (actionLog w)
    /\ consecutiveErrors (world_of run) = (if handled then 0 else 1)%nat
    /\ isListening (world_of run) = isListening w
    /\ recognitionRef (world_of run) = recognitionRef w
    /\ restartsScheduled (world_of run) = restartsScheduled w.
Proof.
  intros primaryIntent run. subst primaryIntent run.
  unfold handleVoiceCommand, classifiedWorld, concludedWorld, primaryIntentOf, classification,
    verdict.
  cbv [bind logAction setLastAction modify ret try_catch classifyPrimaryIntent generateContent
       world_of result_of].
  cbn [gatewayCalls set_lastAction set_log snd fst].
  set (request := mkRequest masterIntentClassifier [("{transcript}", command)]).
  destruct (gateway (length (gatewayCalls w)) request) as [text|]; cbv beta iota.
  all: match goal with
       | |- context [routeIntent products filterOptions gateway ?i ?c ?b] =>
           destruct (Returns_routeIntent products filterOptions gateway i c b)
             as (handled & Hh & _);
           pose proof (Keeps_session_routeIntent products filterOptions gateway i c b) as Hs;
           unfold result_of in Hh; unfold world_of, session in Hs;
           destruct (routeIntent products filterOptions gateway i c b) as [[h|] after];
           [|discriminate]
       end.
  all: exists h, after; cbn in Hs; injection Hs as Hlog Herr Hl Hr Hn.
  all: split; [reflexivity|].
  all: destruct h; cbn; rewrite ?Hlog, ?Hl, ?Hr, ?Hn; cbn.
  all: repeat split; try done.
  all: rewrite ?take_take, ?Herr; done.
Qed.

(** X2. A dispatch asks the Gateway at most three times: first for the
    category, then what the pathway of the category asks, which is two
    requests for a category navigation only and none only for a product
    action, a clearing of the filters, a general command or an unknown
    category; every request of the pathway carries the command as it was
    heard. *)
Theorem handleVoiceCommand_asks (command : string) (w : World) :
  let primaryIntent := primaryIntentOf gateway command w in
  let run := handleVoiceCommand products filterOptions gateway renderedErrors command w in
  exists made,
    gatewayCalls (world_of run) = gatewayCalls w ++ classification command :: made
    /\ (length made <= 2)%nat
    /\ (length made = 2%nat -> primaryIntent = "category_navigation")
    /\ (made = [] -> primaryIntent ∈ mayAnswerUnasked \/ primaryIntent ∉ knownIntents)
    /\ Forall (carries command) made.
Proof.
  intros primaryIntent run.
  destruct (handleVoiceCommand_unfolds command w)
    as (before & handled & after & Hroute & _ & Hb & _ & _ & _ & Hcalls & _).
  destruct (routeIntent_calls products filterOptions gateway primaryIntent command before)
    as (made & Hmade & Hlen & Htwo & Hnone & Hall).
  fold primaryIntent in Hroute. rewrite Hroute in Hmade. unfold world_of in Hmade at 1.
  simpl in Hmade. exists made. subst run. rewrite Hcalls, Hmade, Hb, <- app_assoc. done.
Qed.

(** X3. Whatever the Gateway answers, a dispatch navigates only to the
    seven named pages and to the pages of products of the catalog, selects
    only sizes of the catalog, sets only positive quantities and never stops
    the recognition. *)
Theorem handleVoiceCommand_permitted (command : string) (w : World) :
  let run := handleVoiceCommand products filterOptions gateway renderedErrors command w in
  exists added,
    effects (world_of run) = effects w ++ added
    /\ Forall (permitted products) added.
Proof.
  intros run.
  destruct (handleVoiceCommand_unfolds command w)
    as (before & handled & after & Hroute & Hb & _ & _ & _ & Hrun & _).
  destruct (Emits_routeIntent products filterOptions gateway
              (primaryIntentOf gateway command w) command before) as (added & Ha & HP).
  rewrite Hroute in Ha. unfold world_of in Ha at 1. simpl in Ha.
  exists added. split; [|done]. fold run in Hrun.
  unfold external in Hrun, Hb. injection Hrun as _ _ ->. injection Hb as _ _ <-. done.
Qed.

(** X4. A category that is none of the eleven cases, spelled as they are
    spelled: the command is not recognised; nothing but the classification
    was asked, no collaborator was called, the failure is logged and
    counted. *)
Theorem handleVoiceCommand_unknown_category (command : string) (w : World) :
  let primaryIntent := primaryIntentOf gateway command w in
  let run := handleVoiceCommand products filterOptions gateway renderedErrors command w in
  primaryIntent ∉ knownIntents ->
  result_of run = Returned tt
  /\ external (world_of run) = external w
  /\ gatewayCalls (world_of run) = gatewayCalls w ++ [classification command]
  /\ lastAction (world_of run) = "Command not recognized: " +:+ quoted command
  /\ head (actionLog (world_of run)) = Some ("No handler processed: " +:+ quoted command, false)
  /\ consecutiveErrors (world_of run) = 1%nat.
Proof.
  intros primaryIntent run Hunknown.
  destruct (handleVoiceCommand_unfolds command w)
    as (before & handled & after & Hroute & Hb & Hcalls & _ & Hr & Hrun & Hasked & Hlog
        & Hlast & Herr & _).
  fold primaryIntent run in Hroute, Hr, Hrun, Hasked, Hlog, Hlast, Herr.
  rewrite routeIntent_unknown in Hroute by done. injection Hroute as <- <-.
  rewrite Hlog. repeat split; try done; congruence.
Qed.

(** X5. When the classification fails, the command is taken for a general
    command; if it contains a filter-clearing phrase the filters are cleared
    and the command is handled, the failed classification being the only
    Gateway call. *)
Theorem handleVoiceCommand_clears_filters_unclassified (command phrase : string) (w : World) :
  let run := handleVoiceCommand products filterOptions gateway renderedErrors command w in
  gateway (length (gatewayCalls w)) (classification command) = None ->
  phrase ∈ clearFilterPhrases ->
  includes command phrase = true ->
  result_of run = Returned tt
  /\ effects (world_of run) = effects w ++ [ClearFilters]
  /\ gatewayCalls (world_of run) = gatewayCalls w ++ [classification command]
  /\ lastAction (world_of run) = "All filters cleared"
  /\ consecutiveErrors (world_of run) = O.
Proof.
  intros run Hgw Hphrase Hincludes.
  destruct (handleVoiceCommand_unfolds command w)
    as (before & handled & after & Hroute & Hb & Hcalls & _ & Hr & Hrun & Hasked & _
        & Hlast & Herr & _).
  fold run in Hr, Hrun, Hasked, Hlast, Herr.
  unfold primaryIntentOf in Hroute. fold (classification command) in Hroute.
  rewrite Hgw in Hroute.
  unfold routeIntent in Hroute.
  change (String.eqb "general_command" "navigation") with false in Hroute.
  change (String.eqb "general_command" "order_completion") with false in Hroute.
  change (String.eqb "general_command" "user_info") with false in Hroute.
  change (String.eqb "general_command" "cart") with false in Hroute.
  change (String.eqb "general_command" "product_action") with false in Hroute.
  change (String.eqb "general_command" "product_navigation") with false in Hroute.
  change (String.eqb "general_command" "remove_filter") with false in Hroute.
  change (String.eqb "general_command" "category_navigation") with false in Hroute.
  change (String.eqb "general_command" "apply_filter") with false in Hroute.
  change (String.eqb "general_command" "clear_filters") with false in Hroute.
  change (String.eqb "general_command" "general_command") with true in Hroute.
  cbv iota in Hroute. unfold bind at 1, interpretCommand, try_catch in Hroute.
  assert (existsb (fun phrase => includes command phrase) clearFilterPhrases = true) as Hfast.
  { apply existsb_exists. exists phrase. split; [by apply list_elem_of_In | done]. }
  rewrite Hfast in Hroute. unfold ret at 1 in Hroute.
  unfold generalCommand in Hroute.
  change (String.eqb "clearFilters" "showGymClothes") with false in Hroute.
  change (String.eqb "clearFilters" "showYogaEquipment") with false in Hroute.
  change (String.eqb "clearFilters" "goToCart") with false in Hroute.
  change (String.eqb "clearFilters" "checkout") with false in Hroute.
  change (String.eqb "clearFilters" "showRunningGear") with false in Hroute.
  change (String.eqb "clearFilters" "clearFilters") with true in Hroute.
  unfold bind, clearFilters, setLastAction, modify, ret in Hroute.
  injection Hroute as <- <-.
  unfold external in Hrun, Hb. injection Hrun as _ _ Heff. injection Hb as _ _ Heff0.
  cbn [effects emit set_lastAction gatewayCalls lastAction] in *.
  repeat split; try done; try congruence.
Qed.

End Dispatch.

Section Sessions.
Context `{rt : JsRuntime}.
Variable products : list Product.t.
Variable filterOptions : FilterOptions.t.
Variable gateway : Gateway.

Lemma dispatchAll_snoc commands c w :
  dispatchAll products filterOptions gateway (commands ++ [c]) w
  = world_of (handleVoiceCommand products filterOptions gateway (fst c) (snd c)
                (dispatchAll products filterOptions gateway commands w)).
Proof. unfold dispatchAll. by rewrite foldl_app. Qed.

(** X6. Over any session of dispatches, whatever counters the renders had
    bound: the recognition is never touched and no restart is scheduled; at
    most three Gateway calls are made per command; after the first command
    the failure counter is at most 1 and the log holds 20 entries at most,
    three more per command until then. *)
Theorem dispatchAll_never_restarts (commands : list (nat * string)) (w : World) :
  let w' := dispatchAll products filterOptions gateway commands w in
  isListening w' = isListening w
  /\ recognitionRef w' = recognitionRef w
  /\ restartsScheduled w' = restartsScheduled w
  /\ (length (gatewayCalls w') <= length (gatewayCalls w) + 3 * length commands)%nat
  /\ (commands <> [] ->
      (consecutiveErrors w' <= 1)%nat
      /\ length (actionLog w') = Nat.min 20 (length (actionLog w) + 3 * length commands)).
Proof.
  induction commands as [|c commands IH] using rev_ind; intros w'; subst w'.
  - simpl. repeat split; try done; try lia.
  - rewrite dispatchAll_snoc.
    set (w1 := dispatchAll products filterOptions gateway commands w) in *.
    destruct IH as (Hl & Hr & Hn & Hc & Hlog).
    destruct (handleVoiceCommand_unfolds products filterOptions gateway (fst c) (snd c) w1)
      as (before & handled & after & Hroute & _ & Hb & _ & _ & _ & Hcalls & Hlog' & _ & Herr
          & Hl' & Hr' & Hn').
    destruct (routeIntent_calls products filterOptions gateway
                (primaryIntentOf gateway (snd c) w1) (snd c) before)
      as (made & Hmade & Hlen & _).
    rewrite Hroute in Hmade. unfold world_of in Hmade at 1. simpl in Hmade.
    rewrite Hl', Hr', Hn', Hcalls, Hmade, Hb, Hlog', Herr.
    rewrite !length_app. cbn [length]. rewrite length_take.
    split; [done|]. split; [done|]. split; [done|]. split; [lia|]. intros _.
    split; [destruct handled; lia|].
    destruct commands as [|c0 commands]; [subst w1; cbn [dispatchAll foldl app length]; lia|].
    destruct Hlog as [_ Hlog]; [done|]. rewrite Hlog. cbn [length]. lia.
Qed.

End Sessions.

(** *** The filter application *)

Lemma Pure_run {A} (m : M A) (w : World) : Pure m -> m w = (result_of (m w), w).
Proof.
  intros H. specialize (H w). unfold world_of, result_of in *.
  destruct (m w); simpl in *. by subst.
Qed.

Lemma Pure_inv {A} (m : M A) (w w' : World) (o : Outcome A) :
  Pure m -> m w = (o, w') -> w' = w.
Proof. intros H E. specialize (H w). unfold world_of in H. by rewrite E in H. Qed.

Lemma mapM_length {A B} (f : A -> M B) (l : list A) (l' : list B) (w w' : World) :
  mapM f l w = (Returned l', w') -> length l' = length l.
Proof.
  revert l' w w'. induction l as [|a l IH]; intros l' w w'; simpl.
  - unfold ret. by intros [= <- _].
  - unfold bind at 1. destruct (f a w) as [[b|] w1]; [|done].
    unfold bind at 1. destruct (mapM f l w1) as [[bs|] w2] eqn:E; [|done].
    unfold ret. intros [= <- _]. simpl. f_equal. by eapply IH.
Qed.

Section FilterCommand.
Context `{rt : JsRuntime}.
Variable filterOptions : FilterOptions.t.
Variable gateway : Gateway.

Lemma Pure_normalizeDimension p acc d : Pure (normalizeDimension filterOptions p acc d).
Proof. unfold Pure, normalizeDimension, restoreCasing. keeps. Qed.

Lemma normalizeDimension_entry p acc d w acc' w' :
  normalizeDimension filterOptions p acc d w = (Returned acc', w') ->
  acc' = acc \/ exists values, values <> [] /\ acc' = acc ++ [(key d, JArr values)].
Proof.
  unfold normalizeDimension. unfold bind at 1.
  destruct (get_prop p (key d) w) as [[values|] w1]; [|done].
  unfold bind at 1. destruct (nonEmpty values w1) as [[present|] w2] eqn:Hne; [|done].
  destruct present; [|unfold ret; intros [= <- _]; by left].
  unfold bind at 1.
  destruct (call_map values (restoreCasing filterOptions d) w2) as [[normalized|] w3] eqn:Hmap;
    [|done].
  unfold ret. intros [= <- _]. right.
  destruct values; try discriminate Hmap.
  unfold call_map, bind in Hmap.
  destruct (mapM _ elements w2) as [[l'|] w4] eqn:Hm; [|done].
  injection Hmap as <- _. exists l'. split; [|done].
  apply mapM_length in Hm. rewrite nonEmpty_array in Hne.
  destruct elements; [discriminate|]. by destruct l'.
Qed.

Lemma foldM_normalizeDimension_entries p ds acc w acc' w' :
  foldM (normalizeDimension filterOptions p) acc ds w = (Returned acc', w') ->
  exists more,
    acc' = acc ++ more
    /\ map fst more `sublist_of` map key ds
    /\ Forall filterEntry more.
Proof.
  revert acc w. induction ds as [|d ds IH]; intros acc w; simpl.
  - unfold ret. intros [= <- _]. exists []. by rewrite app_nil_r.
  - unfold bind at 1.
    destruct (normalizeDimension filterOptions p acc d w) as [[acc1|] w1] eqn:Hd; [|done].
    intros Hrest. apply IH in Hrest as (more & -> & Hsub & Hall).
    apply normalizeDimension_entry in Hd as [->|(values & Hne & ->)].
    + exists more. split; [done|]. split; [by apply sublist_cons|done].
    + exists ((key d, JArr values) :: more). rewrite <- app_assoc. split; [done|].
      split; [by apply sublist_skip|]. constructor; [|done]. right. by exists values.
Qed.

Lemma Pure_foldM_normalizeDimension p acc ds :
  Pure (foldM (normalizeDimension filterOptions p) acc ds).
Proof. apply Keeps_foldM. intros. apply Pure_normalizeDimension. Qed.

Lemma Pure_get_prop v k : Pure (get_prop v k).
Proof. apply Keeps_get_prop. Qed.

(** X8. [interpretFilterCommand] answers "unknown" having written nothing,
    or "filters_updated" having called [updateFilters] once; what it passes
    is not empty, its property names are distinct and in the order colors,
    sizes, materials, genders, brands, subCategories, price, and every list
    in it is an array that is not empty. *)
Theorem interpretFilterCommand_writes_once (transcript : string) (w : World) :
  let request := mkRequest filterCommand (filterSubstitutions filterOptions transcript) in
  let run := interpretFilterCommand filterOptions gateway transcript w in
  run = (Returned "unknown", record_call request w)
  \/ exists normalizedFilters,
       run = (Returned "filters_updated",
              emit (UpdateFilters normalizedFilters) (record_call request w))
       /\ normalizedFilters <> []
       /\ map fst normalizedFilters `sublist_of` filterKeys
       /\ Forall filterEntry normalizedFilters.
Proof.
  intros request run. remember run as r eqn:Hr. subst run.
  unfold interpretFilterCommand, try_catch at 1, bind at 1, generateContent in Hr.
  fold request in Hr. destruct (gateway _ request) as [response|]; [|by left].
  cbv zeta in Hr. set (w0 := record_call request w) in *.
  unfold bind at 1, try_catch at 1, bind at 1, parse in Hr.
  destruct (JSON_parse _) as [parsedFilters|]; [|by left].
  unfold ret at 1 in Hr. unfold bind at 1 in Hr.
  destruct (foldM (normalizeDimension filterOptions parsedFilters) [] dimensions w0)
    as [[lists|] w1] eqn:Hfold.
  all: pose proof (Pure_inv _ _ _ _ (Pure_foldM_normalizeDimension _ _ _) Hfold) as ->.
  2: by left.
  apply foldM_normalizeDimension_entries in Hfold as (more & -> & Hsub & Hall).
  simpl app in Hr. unfold bind at 1 in Hr.
  destruct (get_prop parsedFilters "price" w0) as [[price|] w1] eqn:Hprice.
  all: pose proof (Pure_inv _ _ _ _ (Pure_get_prop _ _) Hprice) as ->.
  2: by left.
  destruct (truthy price).
  - right. exists (more ++ [("price", price)]).
    split; [by destruct more|]. split; [by destruct more|].
    split; [unfold filterKeys; rewrite map_app; by apply sublist_app|].
    apply Forall_app; split; [done|]. repeat constructor.
  - destruct more as [|entry more]; [by left|]. right. exists (entry :: more).
    split; [done|]. split; [done|]. split; [|done].
    unfold filterKeys. by apply sublist_inserts_r.
Qed.

End FilterCommand.

(** *** The profile update *)

Section UserInfoUpdate.
Context `{rt : JsRuntime}.
Variable gateway : Gateway.

Lemma get_prop_field fields k w : get_prop (JObj fields) k w = (Returned (field fields k), w).
Proof. reflexivity. Qed.

Lemma mergeFields_step fields k label assign rest u labels w :
  mergeFields (JObj fields) ((k, label, assign) :: rest) u labels w
  = mergeFields (JObj fields) rest
      (if truthy (field fields k) then assign (field fields k) u else u)
      (labels ++ if truthy (field fields k) then [label] else []) w.
Proof.
  cbn [mergeFields]. unfold bind. rewrite get_prop_field.
  destruct (truthy (field fields k)); [done | by rewrite app_nil_r].
Qed.

Lemma if_mk (b : bool) (a1 a2 a3 a4 a5 a6 a7 a8 c1 c2 c3 c4 c5 c6 c7 c8 : JsVal) :
  (if b then UserInfo.mk a1 a2 a3 a4 a5 a6 a7 a8 else UserInfo.mk c1 c2 c3 c4 c5 c6 c7 c8)
  = UserInfo.mk (if b then a1 else c1) (if b then a2 else c2) (if b then a3 else c3)
      (if b then a4 else c4) (if b then a5 else c5) (if b then a6 else c6)
      (if b then a7 else c7) (if b then a8 else c8).
Proof. by destruct b. Qed.

Lemma if_same {A} (b : bool) (x : A) : (if b then x else x) = x.
Proof. by destruct b. Qed.

(** X10. On an answer that is an object with a truthy [isUserInfoUpdate]:
    each of the eight fields of the profile is the answer's when that is
    truthy and the stored one otherwise; when no field of the answer is
    truthy nothing is written and [false] is returned; otherwise the merged
    profile is stored, the event names the updated fields, and [true] is
    returned. *)
Theorem handleUserInfoUpdate_merges (transcript response : string)
    (fields : list (string * JsVal)) (w : World) :
  let request := mkRequest userInfoUpdate [("{transcript}", transcript)] in
  let merged := mergedUserInfo fields (storedUserInfo w) in
  let labels := updatedLabels fields in
  let message := "Updated your " +:+ join ", " labels in
  gateway (length (gatewayCalls w)) request = Some response ->
  JSON_parse (stripFences response) = Some (JObj fields) ->
  truthy (field fields "isUserInfoUpdate") = true ->
  handleUserInfoUpdate gateway transcript w
  = match labels with
    | [] => (Returned false, record_call request w)
    | _ :: _ =>
        (Returned true,
         set_lastAction message
           (emit (UserInfoUpdated message labels)
              (set_storedUserInfo merged
                 (emit (UpdateUserInfo merged) (record_call request w)))))
    end.
Proof.
  intros request merged labels message Hgw Hparse Hupdate.
  subst message labels merged.
  unfold handleUserInfoUpdate, try_catch at 1, bind at 1, generateContent.
  fold request. rewrite Hgw. cbv zeta.
  unfold try_catch at 1, bind at 1, parse. rewrite Hparse. unfold ret at 1.
  unfold bind at 1. rewrite get_prop_field, Hupdate.
  unfold bind at 1, getUserInfo, gets at 1.
  unfold userInfoFields. unfold bind at 1.
  change (storedUserInfo (record_call request w)) with (storedUserInfo w).
  destruct (storedUserInfo w) as [n e a p cn cnum ex cv].
  repeat (rewrite mergeFields_step;
          cbn [UserInfo.name UserInfo.email UserInfo.address UserInfo.phone UserInfo.cardName
               UserInfo.cardNumber UserInfo.expiryDate UserInfo.cvv];
          rewrite if_mk, !if_same).
  cbn [mergeFields ret app].
  unfold updatedLabels, mergedUserInfo, flat_map, js_or. cbn [fst snd].
  cbn [UserInfo.name UserInfo.email UserInfo.address UserInfo.phone UserInfo.cardName
       UserInfo.cardNumber UserInfo.expiryDate UserInfo.cvv].
  rewrite app_nil_r, !app_assoc.
  match goal with
  | |- context [join ", " ?l] => generalize l
  end.
  intros [|label labels]; reflexivity.
Qed.

Lemma nothing_unset_refl u : nothing_unset u u.
Proof. by intros get _. Qed.

Lemma nothing_unset_trans u1 u2 u3 :
  nothing_unset u1 u2 -> nothing_unset u2 u3 -> nothing_unset u1 u3.
Proof. intros H12 H23 get Hget H. by apply H23, H12. Qed.

Lemma userInfoFields_nothing_unset :
  Forall (fun entry : string * string * (JsVal -> UserInfo.t -> UserInfo.t) =>
            forall v u, truthy v = true -> nothing_unset u (snd entry v u))
         userInfoFields.
Proof.
  unfold userInfoFields. repeat constructor.
  all: intros v u Hv get Hget; unfold userInfoGetters in Hget.
  all: repeat (apply elem_of_cons in Hget as [->|Hget]; [by cbn|]).
  all: by apply elem_of_nil in Hget.
Qed.

Lemma mergeFields_nothing_unset response table u labels w u' labels' w' :
  Forall (fun entry : string * string * (JsVal -> UserInfo.t -> UserInfo.t) =>
            forall v u, truthy v = true -> nothing_unset u (snd entry v u)) table ->
  mergeFields response table u labels w = (Returned (u', labels'), w') ->
  nothing_unset u u'.
Proof.
  intros Htable. revert u labels w.
  induction Htable as [|[[k label] assign] table Hentry _ IH]; intros u labels w; simpl.
  - unfold ret. intros [= <- _ _]. apply nothing_unset_refl.
  - unfold bind at 1. destruct (get_prop response k w) as [[v|] w1]; [|done].
    destruct (truthy v) eqn:Hv; intros Hrest; apply IH in Hrest; [|done].
    eapply nothing_unset_trans; [|done]. by apply (Hentry v u).
Qed.

(** X11. Whatever the Gateway answers, no field of the stored profile that
    is set is unset by [handleUserInfoUpdate]. *)
Theorem handleUserInfoUpdate_never_unsets (transcript : string) (w : World) :
  nothing_unset (storedUserInfo w)
    (storedUserInfo (world_of (handleUserInfoUpdate gateway transcript w))).
Proof.
  pose proof (nothing_unset_refl (storedUserInfo w)) as Hsame.
  unfold handleUserInfoUpdate, try_catch at 1, bind at 1, generateContent.
  destruct (gateway _ _) as [response|]; [|exact Hsame].
  cbv zeta. unfold try_catch at 1, bind at 1, parse.
  destruct (JSON_parse _) as [parsed|]; [|exact Hsame].
  unfold ret at 1. unfold bind at 1.
  set (w0 := record_call _ w) in *.
  destruct (get_prop parsed "isUserInfoUpdate" w0) as [[isUpdate|] w1] eqn:Hget.
  all: pose proof (Pure_inv _ _ _ _ (Pure_get_prop _ _) Hget) as ->.
  2: exact Hsame.
  destruct (truthy isUpdate); [|exact Hsame].
  unfold bind at 1, getUserInfo, gets at 1. unfold bind at 1.
  destruct (mergeFields parsed userInfoFields (storedUserInfo w0) [] w0)
    as [[[updatedInfo updatedFields]|] w1] eqn:Hmerge.
  all: pose proof (Pure_inv _ _ _ _ (Keeps_mergeFields _ _ _ _ _) Hmerge) as ->.
  2: exact Hsame.
  apply mergeFields_nothing_unset in Hmerge; [|apply userInfoFields_nothing_unset].
  destruct updatedFields; [exact Hsame | exact Hmerge].
Qed.

End UserInfoUpdate.

(** *** Spellings, sizes, checkout and categories *)

Section Spellings.
Context `{rt : JsRuntime}.
Variable filterOptions : FilterOptions.t.

Lemma fromEntries_last (before after : list string) (c : string) :
  (forall c', c' ∈ after -> toLowerCase c' <> toLowerCase c) ->
  fromEntries (before ++ c :: after) !! toLowerCase c = Some c.
Proof.
  induction after as [|x after IH] using rev_ind; intros Hafter.
  - rewrite fromEntries_snoc. apply lookup_insert_eq.
  - replace (before ++ c :: after ++ [x]) with ((before ++ c :: after) ++ [x])
      by (by rewrite <- app_assoc).
    rewrite fromEntries_snoc, lookup_insert_ne; [|apply Hafter; set_solver].
    apply IH. intros c' Hc'. apply Hafter. set_solver.
Qed.

(** X15. When several canonical values of a dimension differ in the case of
    their letters only, a raw value is given the spelling of the last of
    them. *)
Theorem restoreCasing_last_spelling (d : Dimension) (v c : string)
    (before after : list string) (w : World) :
  canonical filterOptions d = before ++ c :: after ->
  toLowerCase c = toLowerCase v ->
  (forall c', c' ∈ after -> toLowerCase c' <> toLowerCase v) ->
  c <> "" ->
  restoreCasing filterOptions d (JStr v) w = (Returned (JStr c), w).
Proof.
  intros Hd Hc Hafter Hne. rewrite restoreCasing_string. unfold referenceMap.
  rewrite Hd, <- Hc, fromEntries_last by (by rewrite Hc).
  by destruct (String.eqb_spec c "").
Qed.

End Spellings.

Section Pathways.
Context `{rt : JsRuntime}.
Variable products : list Product.t.
Variable filterOptions : FilterOptions.t.
Variable gateway : Gateway.
Variable renderedErrors : nat.

Lemma findM_sizes (wanted : string) (sizes : list string) (w : World) :
  findM (fun s => lowered <- call_toLowerCase (JStr wanted) ;;
                  ret (String.eqb (toLowerCase s) lowered)) sizes w
  = (Returned (find (fun s => String.eqb (toLowerCase s) (toLowerCase wanted)) sizes), w).
Proof.
  induction sizes as [|s sizes IH]; simpl; [done|].
  unfold bind at 1. cbn [call_toLowerCase]. unfold bind at 1, ret at 1. unfold ret at 1.
  destruct (String.eqb (toLowerCase s) (toLowerCase wanted)); [done | apply IH].
Qed.

(** X12. The size selection: the size of the answer is looked for among the
    sizes of the product, the case of the letters apart; the first one that
    matches is selected, as the catalog spells it. The command is reported
    handled also when no size matches (or the matching size is the empty
    string) and nothing was selected. *)
Theorem handleProductActions_selects_size (transcript response wanted : string)
    (fields : list (string * JsVal)) (product : Product.t) (w : World) :
  let request :=
    mkRequest productAction
      [ ("{productName}", Product.name product);
        ("{sizes}", join ", " (Product.sizes product));
        ("{transcript}", transcript) ] in
  let asked := record_call request w in
  startsWith (pathname w) "/product/" = true ->
  find (fun p => bool_decide (Some (Product.id p) = last (split "/" (pathname w)))) products
    = Some product ->
  gateway (length (gatewayCalls w)) request = Some response ->
  JSON_parse (trim (stripFences response)) = Some (JObj fields) ->
  field fields "action" = JStr "size" ->
  field fields "size" = JStr wanted ->
  wanted <> "" ->
  handleProductActions products gateway transcript w
  = (Returned true,
     match find (fun s => String.eqb (toLowerCase s) (toLowerCase wanted))
                (Product.sizes product) with
     | Some size => if String.eqb size "" then asked else emit (SetSelectedSize size) asked
     | None => asked
     end).
Proof.
  intros request asked Hpage Hprod Hgw Hparse Haction Hsize Hwanted.
  unfold handleProductActions, try_catch at 1.
  unfold bind at 1. unfold gets at 1. rewrite Hpage. cbn [negb].
  rewrite Hprod. unfold bind at 1, generateContent. fold request. rewrite Hgw.
  cbv zeta. unfold try_catch, parse, bind at 1. rewrite Hparse.
  unfold ret at 1. unfold bind at 1. rewrite get_prop_field, Haction.
  cbn [is_str]. change (String.eqb "size" "none") with false. cbv iota.
  unfold bind at 1. rewrite get_prop_field, Hsize.
  change (String.eqb "size" "size") with true. cbn [truthy andb].
  destruct (String.eqb_spec wanted "") as [|_]; [done|]. cbn [negb].
  unfold bind at 1. unfold bind at 1. rewrite findM_sizes. fold asked.
  destruct (find _ (Product.sizes product)) as [size|].
  - destruct (String.eqb size ""); reflexivity.
  - reflexivity.
Qed.

(** X13. The general command "checkout" and the order completion (its
    classifier answering yes) do the same to the collaborators, but on the
    payment page with an incomplete profile: there the general command does
    nothing and the order completion navigates to the payment page again.
    Both report the command handled. *)
Theorem generalCheckout_and_handleOrderCompletion (transcript answer : string) (w : World) :
  let spoken := handleOrderCompletion gateway transcript w in
  let general := generalCommand "checkout" w in
  gateway (length (gatewayCalls w)) (mkRequest orderCompletion [("{transcript}", transcript)])
    = Some answer ->
  toLowerCase (trim answer) = "yes" ->
  result_of spoken = Returned true
  /\ result_of general = Returned true
  /\ if String.eqb (pathname w) "/payment" && negb (profile_complete (storedUserInfo w))
     then external (world_of general) = external w
          /\ effects (world_of spoken) = effects w ++ [Navigate "/payment"]
     else external (world_of general) = external (world_of spoken).
Proof.
  intros spoken general Hgw Hyes. subst spoken general.
  unfold handleOrderCompletion, generalCommand, generalCheckout, submitOrder.
  change (String.eqb "checkout" "showGymClothes") with false.
  change (String.eqb "checkout" "showYogaEquipment") with false.
  change (String.eqb "checkout" "goToCart") with false.
  change (String.eqb "checkout" "checkout") with true. cbv iota.
  cbv [try_catch bind generateContent gets getUserInfo ret]. rewrite Hgw, Hyes.
  change (String.eqb "yes" "yes") with true. cbv iota beta.
  cbn [pathname storedUserInfo record_call].
  destruct (String.eqb (pathname w) "/payment"); cbn [andb]; cbv beta iota.
  - cbn [storedUserInfo record_call]. rewrite !hasRequiredInfo_complete.
    destruct (profile_complete (storedUserInfo w)); cbn [negb]; cbv beta iota.
    + cbn. destruct (submitButton w); cbn; done.
    + cbn. done.
  - cbn. done.
Qed.

(** X9. The category navigation: on an answer that is none of gym, yoga
    and running (trimmed, lower-cased) nothing is done and the filters are
    not asked for; on one of the three the page is navigated to, then the
    filter application is run on the same utterance, in the world that
    navigation left, and the command is handled whatever the filter
    application answers. *)
Theorem category_navigation_chains (command answer : string) (w : World) :
  let request := mkRequest categoryNavigation [("{transcript}", command)] in
  let run := routeIntent products filterOptions gateway "category_navigation" command w in
  gateway (length (gatewayCalls w)) request = Some answer ->
  match categoryPath (toLowerCase (trim answer)) with
  | Some path =>
      let navigated :=
        set_lastAction ("Navigating to category based on: " +:+ quoted command)
          (set_pathname path (emit (Navigate path) (record_call request w))) in
      let filtered :=
        world_of (interpretFilterCommand filterOptions gateway command navigated) in
      result_of run = Returned true
      /\ external (world_of run) = external filtered
      /\ gatewayCalls (world_of run) = gatewayCalls filtered
  | None => run = (Returned false, record_call request w)
  end.
Proof.
  intros request run Hgw. remember run as r eqn:Hr. subst run. unfold routeIntent in Hr.
  change (String.eqb "category_navigation" "navigation") with false in Hr.
  change (String.eqb "category_navigation" "order_completion") with false in Hr.
  change (String.eqb "category_navigation" "user_info") with false in Hr.
  change (String.eqb "category_navigation" "cart") with false in Hr.
  change (String.eqb "category_navigation" "product_action") with false in Hr.
  change (String.eqb "category_navigation" "product_navigation") with false in Hr.
  change (String.eqb "category_navigation" "remove_filter") with false in Hr.
  change (String.eqb "category_navigation" "category_navigation") with true in Hr.
  cbv iota in Hr. unfold bind at 1 in Hr.
  assert (handleCategoryNavigation gateway command w
          = match categoryPath (toLowerCase (trim answer)) with
            | Some path =>
                (Returned true, set_pathname path (emit (Navigate path) (record_call request w)))
            | None => (Returned false, record_call request w)
            end) as Hnav.
  { unfold handleCategoryNavigation, try_catch, bind at 1, generateContent.
    fold request. rewrite Hgw. cbv zeta. unfold categoryPath.
    repeat match goal with
           | |- context [String.eqb ?a ?b] => destruct (String.eqb a b)
           end; reflexivity. }
  rewrite Hnav in Hr. clear Hnav.
  destruct (categoryPath _) as [path|]; [|by subst r]. cbv zeta.
  unfold bind at 1, setLastAction at 1, modify at 1 in Hr.
  set (navigated := set_lastAction _ (set_pathname path _)) in *.
  destruct (Returns_interpretFilterCommand filterOptions gateway command navigated)
    as (result & Hresult & _).
  unfold bind at 1 in Hr. unfold result_of, world_of in *.
  destruct (interpretFilterCommand filterOptions gateway command navigated)
    as [[filtersApplied|] filtered]; [|done].
  destruct (String.eqb filtersApplied "filters_updated"); subst r; cbn; done.
Qed.

End Pathways.

(** *** Fences *)

Lemma append_cons (c : ascii) (s t : string) : String c s +:+ t = String c (s +:+ t).
Proof. reflexivity. Qed.

Lemma append_empty (t : string) : "" +:+ t = t.
Proof. reflexivity. Qed.

Lemma remove_first_closing_fence (s : string) :
  includes s fence = false -> remove_first fence (s +:+ fence) = s.
Proof.
  unfold fence. induction s as [|c s IH]; [reflexivity|].
  cbn [includes]. intros H. apply orb_false_elim in H as [Hp Hi].
  rewrite append_cons. cbn [remove_first].
  destruct (String.prefix "```" (String c (s +:+ "```"))) eqn:E.
  - destruct s as [|c1 [|c2 s]]; rewrite ?append_cons, ?append_empty in *;
      cbn [String.prefix string_drop String.length] in E, Hp |- *.
    + destruct (ascii_dec "`" c) as [<-|]; [reflexivity | done].
    + destruct (ascii_dec "`" c) as [<-|]; [|done].
      destruct (ascii_dec "`" c1) as [<-|]; [reflexivity | done].
    + destruct (ascii_dec "`" c), (ascii_dec "`" c1), (ascii_dec "`" c2); try done.
      by destruct s.
  - f_equal. by apply IH.
Qed.

Lemma includes_jsonFence (s : string) : includes s jsonFence = true -> includes s fence = true.
Proof.
  rewrite !includes_spec. intros (before & after & ->).
  exists before, ("json" +:+ after). unfold jsonFence, fence.
  by replace ("```json" +:+ after) with ("```" +:+ "json" +:+ after).
Qed.

(** X16. An answer without a fence is left as it is, and an answer given as
    a fenced block of JSON is unwrapped, whatever backquotes the body holds
    as long as it holds no fence. *)
Theorem stripFences_unwraps (body : string) :
  includes body fence = false ->
  stripFences body = body
  /\ stripFences (jsonFence +:+ body +:+ fence) = body.
Proof.
  intros Hbody. unfold stripFences. split.
  - rewrite (remove_first_absent "```json").
    + by apply remove_first_absent.
    + destruct (includes body "```json") eqn:E; [|done].
      apply includes_jsonFence in E. congruence.
  - unfold jsonFence. rewrite remove_first_prefix. by apply remove_first_closing_fence.
Qed.

(** *** Errors of the recognition *)

Lemma afterErrors_snoc errors error w :
  afterErrors (errors ++ [error]) w = world_of (onerror error (afterErrors errors w)).
Proof. unfold afterErrors. by rewrite foldl_app. Qed.

(** X17. Errors of the recognition: each one, "aborted" included, adds one
    to the failure counter, which nothing in [onerror] bounds or resets; each
    one but "aborted" schedules one restart and drops the recognition; no
    collaborator is called and the Gateway is not asked; the next start of
    the recognition sets the counter to 0. *)
Theorem onerror_counts (errors : list string) (w : World) :
  let w' := afterErrors errors w in
  consecutiveErrors w' = (consecutiveErrors w + length errors)%nat
  /\ restartsScheduled w'
     = (restartsScheduled w + length (filter (fun error => error <> "aborted") errors))%nat
  /\ external w' = external w
  /\ gatewayCalls w' = gatewayCalls w
  /\ (forall error, last errors = Some error -> error <> "aborted" ->
        isListening w' = false /\ recognitionRef w' = false)
  /\ consecutiveErrors (world_of (onstart w')) = O.
Proof.
  induction errors as [|error errors IH] using rev_ind; intros w'; subst w'.
  - simpl. repeat split; try done; lia.
  - rewrite afterErrors_snoc. destruct IH as (Hc & Hr & He & Hg & _ & _).
    set (w1 := afterErrors errors w) in *.
    rewrite filter_app, !length_app, last_snoc.
    assert (length (filter (fun error => error <> "aborted") [error])
            = if String.eqb error "aborted" then O else 1%nat) as ->.
    { destruct (String.eqb_spec error "aborted") as [->|Hne].
      - by rewrite filter_cons_False by (by intros []).
      - by rewrite filter_cons_True by done. }
    unfold onerror, onstart. cbv [bind logAction modify world_of ret]. unfold external in *.
    destruct (String.eqb_spec error "aborted") as [->|Hne];
      cbn [negb snd fst consecutiveErrors restartsScheduled gatewayCalls isListening
           recognitionRef set_log set_recognition pathname storedUserInfo effects length].
    + rewrite Hc, Hr, Hg, He.
      repeat split; try done; try lia; congruence.
    + rewrite Hc, Hr, Hg, He.
      repeat split; try done; lia.
Qed.

(** *** The general commands and the prompts *)

Section GeneralCommands.
Context `{rt : JsRuntime}.
Variable products : list Product.t.
Variable filterOptions : FilterOptions.t.
Variable gateway : Gateway.

(** X14. Of the eight functions offered in the prompt of the general
    interpreter, the general commands have a case for six; the answers
    "navigateToCategory" and "applyFilters" are not handled and do
    nothing. *)
Theorem generalCommand_advertised (action : string) (w : World) :
  action ∈ map fst availableFunctions ->
  if bool_decide (action ∈ unhandledFunctions)
  then generalCommand action w = (Returned false, w)
  else result_of (generalCommand action w) = Returned true.
Proof.
  unfold availableFunctions. cbn [map fst]. intros H.
  assert (forall m : M bool, Returns (eq true) m -> result_of (m w) = Returned true) as Hret.
  { intros m Hm. by destruct (Hm w) as (a & -> & <-). }
  repeat (apply elem_of_cons in H as [->|H];
          [ match goal with
            | |- if bool_decide ?P then _ else _ =>
                let b := eval vm_compute in (bool_decide P) in
                change (bool_decide P) with b; cbv iota
            end;
            unfold generalCommand;
            repeat match goal with
                   | |- context [String.eqb ?a ?b] =>
                       let v := eval vm_compute in (String.eqb a b) in
                       change (String.eqb a b) with v; cbv iota
                   end;
            first [ reflexivity
                  | apply Hret; unfold generalCheckout, submitOrder; returns ] |]).
  by apply elem_of_nil in H.
Qed.

(** X7. Each of these nine interpreters asks the Gateway exactly once,
    with its own prompt filled in with the utterance (and the catalog, where
    the prompt has a place for it), also when the call fails or the answer
    makes the interpreter throw. *)
Theorem interpreters_ask_once (transcript : string) (w : World) :
  let asked {A} (m : M A) := gatewayCalls (world_of (m w)) in
  let once (template : PromptTemplate) (substitutions : list (string * string)) :=
    gatewayCalls w ++ [mkRequest template (("{transcript}", transcript) :: substitutions)] in
  asked (handleNavigationCommand gateway transcript) = once navigationCommand []
  /\ asked (handleOrderCompletion gateway transcript) = once orderCompletion []
  /\ asked (handleUserInfoUpdate gateway transcript) = once userInfoUpdate []
  /\ asked (handleCartNavigation gateway transcript) = once cartNavigation []
  /\ asked (handleCategoryNavigation gateway transcript) = once categoryNavigation []
  /\ asked (handleClearFilters gateway transcript) = once clearFiltersPrompt []
  /\ asked (handleProductDetailNavigation products gateway transcript)
     = once productDetailNavigation [("{productList}", productListText products)]
  /\ asked (interpretFilterCommand filterOptions gateway transcript)
     = once filterCommand
         (map (fun d => (placeholder d, join ", " (canonical filterOptions d))) dimensions)
  /\ asked (handleRemoveFilters filterOptions gateway transcript)
     = once removeFilterCommand
         (map (fun d => (placeholder d, join ", " (canonical filterOptions d))) dimensions).
Proof.
  intros asked once. subst asked once. cbv beta.
  repeat split.
  - apply handleNavigationCommand_calls.
  - apply handleOrderCompletion_calls.
  - apply handleUserInfoUpdate_calls.
  - apply handleCartNavigation_calls.
  - apply handleCategoryNavigation_calls.
  - apply handleClearFilters_calls.
  - apply handleProductDetailNavigation_calls.
  - apply interpretFilterCommand_calls.
  - apply handleRemoveFilters_calls.
Qed.

End GeneralCommands.

(* ===================================================================== *)
(** ** Further properties at concrete inputs *)
(* ===================================================================== *)

(** The classifier answers "Navigation", which is no case of the switch. *)
Lemma handleVoiceCommand_unknown_category_witness :
  let w := initialWorld "/products/gym" noUserInfo false in
  let run :=
    handleVoiceCommand (rt := ascii_runtime) exampleProducts exampleFilterOptions
      (always "Navigation") O "go back" w in
  effects (world_of run) = []
  /\ lastAction (world_of run) = "Command not recognized: " +:+ quoted "go back"
  /\ consecutiveErrors (world_of run) = 1%nat.
Proof.
  intros w run.
  destruct (handleVoiceCommand_unknown_category (rt := ascii_runtime) exampleProducts
              exampleFilterOptions (always "Navigation") O "go back" w)
    as (_ & Hexternal & _ & Hlast & _ & Hcounter).
  - vm_compute. intros H.
    repeat (apply elem_of_cons in H as [H|H]; [discriminate H|]).
    by apply elem_of_nil in H.
  - fold run in Hexternal, Hlast, Hcounter.
    split; [exact (f_equal snd Hexternal) | by split].
Defined.

(** "please clear filters now" while the Gateway cannot be reached. *)
Lemma handleVoiceCommand_clears_filters_unclassified_witness :
  let w := initialWorld "/products/gym" noUserInfo false in
  let run :=
    handleVoiceCommand (rt := ascii_runtime) exampleProducts exampleFilterOptions
      unreachable O "please clear filters now" w in
  effects (world_of run) = [ClearFilters]
  /\ consecutiveErrors (world_of run) = O.
Proof.
  intros w run.
  destruct (handleVoiceCommand_clears_filters_unclassified (rt := ascii_runtime)
              exampleProducts exampleFilterOptions unreachable O
              "please clear filters now" "clear filter" w)
    as (_ & Heffects & _ & _ & Hcounter).
  - reflexivity.
  - unfold clearFilterPhrases. apply list_elem_of_here.
  - reflexivity.
  - split; [exact Heffects | exact Hcounter].
Defined.

(** "show me red yoga mats": the category answer is "Yoga", the filter
    answer names the colour. *)
Lemma category_navigation_chains_witness :
  let w := initialWorld "/" noUserInfo false in
  let gateway : Gateway :=
    fun n _ =>
      match n with
      | O => Some " Yoga "
      | S _ => Some (json_object [json_member "colors" (json_array [json_string "red"])])
      end in
  let run :=
    routeIntent (rt := ascii_runtime) exampleProducts exampleFilterOptions gateway
      "category_navigation" "show me red yoga mats" w in
  result_of run = Returned true
  /\ external (world_of run)
     = ("/products/yoga", noUserInfo,
        [Navigate "/products/yoga"; UpdateFilters [("colors", JArr [JStr "Red"])]]).
Proof.
  intros w gateway run.
  pose proof (category_navigation_chains (rt := ascii_runtime) exampleProducts
                exampleFilterOptions gateway "show me red yoga mats" " Yoga " w eq_refl)
    as H.
  change (categoryPath _) with (Some "/products/yoga") in H.
  destruct H as (Hresult & Hexternal & _).
  split; [exact Hresult|]. fold run in Hexternal. rewrite Hexternal. reflexivity.
Defined.

(** The answer sets a new name and an empty phone number: the name is
    replaced, the phone number is kept. *)
Lemma handleUserInfoUpdate_merges_witness :
  let w := initialWorld "/payment" completeUserInfo false in
  let answer :=
    json_object [ json_member "isUserInfoUpdate" "true";
                  json_member "name" (json_string "Grace");
                  json_member "phone" (json_string "") ] in
  let run := handleUserInfoUpdate (rt := ascii_runtime) (always answer) "my name is Grace" w in
  result_of run = Returned true
  /\ UserInfo.name (storedUserInfo (world_of run)) = JStr "Grace"
  /\ UserInfo.phone (storedUserInfo (world_of run)) = JStr "555"
  /\ lastAction (world_of run) = "Updated your name".
Proof.
  intros w answer run. subst run.
  rewrite (handleUserInfoUpdate_merges (rt := ascii_runtime) (always answer)
             "my name is Grace" answer
             [ ("isUserInfoUpdate", JBool true); ("name", JStr "Grace"); ("phone", JStr "") ]
             w eq_refl eq_refl eq_refl).
  repeat split.
Defined.

(** Whatever is heard, and whatever the Gateway answers, a name that is set
    stays set. *)
Lemma handleUserInfoUpdate_never_unsets_witness :
  let w := initialWorld "/payment" completeUserInfo false in
  let answer :=
    json_object [ json_member "isUserInfoUpdate" "true";
                  json_member "name" "null";
                  json_member "email" (json_string "grace@example.org") ] in
  let run := handleUserInfoUpdate (rt := ascii_runtime) (always answer) "forget my name" w in
  truthy (UserInfo.name (storedUserInfo (world_of run))) = true.
Proof.
  intros w answer run.
  apply (handleUserInfoUpdate_never_unsets (rt := ascii_runtime) (always answer)
           "forget my name" w UserInfo.name).
  - unfold userInfoGetters. apply list_elem_of_here.
  - reflexivity.
Defined.

(** On the page of the yoga mats, "one size" selects the size as the
    catalog spells it. *)
Lemma handleProductActions_selects_size_witness :
  let w := initialWorld "/product/2" noUserInfo false in
  let answer :=
    json_object [ json_member "action" (json_string "size");
                  json_member "size" (json_string "one size") ] in
  let run :=
    handleProductActions (rt := ascii_runtime) exampleProducts (always answer)
      "I take one size" w in
  result_of run = Returned true
  /\ effects (world_of run) = [SetSelectedSize "One Size"].
Proof.
  intros w answer run. subst run.
  rewrite (handleProductActions_selects_size (rt := ascii_runtime) exampleProducts
             (always answer) "I take one size" answer "one size"
             [("action", JStr "size"); ("size", JStr "one size")]
             (Product.mk "2" "Yoga Mats" "Mats that do not slip" ["One Size"]) w
             eq_refl eq_refl eq_refl eq_refl eq_refl eq_refl ltac:(discriminate)).
  split; reflexivity.
Defined.

(** On the payment page with no profile: the general command leaves the
    page as it is, the order completion navigates to it again. *)
Lemma generalCheckout_and_handleOrderCompletion_witness :
  let w := initialWorld "/payment" noUserInfo true in
  external (world_of (generalCommand "checkout" w)) = external w
  /\ effects (world_of (handleOrderCompletion (rt := ascii_runtime) (always "Yes") "check out" w))
     = [Navigate "/payment"].
Proof.
  intros w.
  destruct (generalCheckout_and_handleOrderCompletion (rt := ascii_runtime) (always "Yes")
              "check out" "Yes" w eq_refl eq_refl) as (_ & _ & H).
  exact H.
Defined.

(** "applyFilters" is offered to the Gateway and has no case. *)
Lemma generalCommand_advertised_witness :
  let w := initialWorld "/products/gym" noUserInfo false in
  generalCommand "applyFilters" w = (Returned false, w).
Proof.
  intros w.
  apply (generalCommand_advertised "applyFilters" w).
  unfold availableFunctions. cbn [map fst]. do 6 apply list_elem_of_further.
  apply list_elem_of_here.
Defined.

(** "rEd" is given the last of the three spellings. *)
Lemma restoreCasing_last_spelling_witness :
  let w := initialWorld "/products/gym" noUserInfo false in
  restoreCasing (rt := ascii_runtime) respelledFilterOptions Colors (JStr "rEd") w
  = (Returned (JStr "RED"), w).
Proof.
  intros w.
  apply (restoreCasing_last_spelling (rt := ascii_runtime) respelledFilterOptions Colors
           "rEd" "RED" ["red"; "Red"] ["Blue"] w).
  - reflexivity.
  - reflexivity.
  - intros c' Hc'. apply list_elem_of_singleton in Hc'. subst c'. discriminate.
  - discriminate.
Defined.

(** An answer in a fence. *)
Lemma stripFences_unwraps_witness :
  stripFences (jsonFence +:+ "{}" +:+ fence) = "{}".
Proof. apply (stripFences_unwraps "{}"). reflexivity. Defined.

(** The removal answer names one colour: the colour is removed and the
    command is reported handled. *)
Lemma handleRemoveFilters_well_typed_witness :
  let w := initialWorld "/products/gym" noUserInfo false in
  let answer :=
    json_object [ json_member "isRemoveFilter" "true";
                  json_member "colors" (json_array [json_string "red"]) ] in
  let run :=
    handleRemoveFilters (rt := ascii_runtime) exampleFilterOptions (always answer)
      "remove the red filter" w in
  result_of run = Returned true
  \/ run = (Returned false,
            record_call (mkRequest removeFilterCommand
                           (filterSubstitutions exampleFilterOptions "remove the red filter")) w).
Proof.
  intros w answer run.
  apply (handleRemoveFilters_well_typed (rt := ascii_runtime) exampleFilterOptions
           (always answer) "remove the red filter" answer
           (JObj [("isRemoveFilter", JBool true); ("colors", JArr [JStr "red"])]) w
           eq_refl eq_refl).
  exists [("isRemoveFilter", JBool true); ("colors", JArr [JStr "red"])].
  split; [reflexivity|].
  intros []; first [ by left | right; by exists ["red"] ].
Defined.

(** "BLUE" is normalised to "Blue", and "Blue" to itself. *)
Lemma restoreCasing_idempotent_witness :
  let w := initialWorld "/products/gym" noUserInfo false in
  let normalize := restoreCasing (rt := ascii_runtime) exampleFilterOptions Colors in
  (once <- normalize (JStr "BLUE") ;; normalize once) w = normalize (JStr "BLUE") w.
Proof.
  intros w normalize.
  apply (restoreCasing_idempotent (rt := ascii_runtime) exampleFilterOptions Colors "BLUE" w).
  right. exists "Blue". split; [|reflexivity].
  apply list_elem_of_further, list_elem_of_here.
Defined.

(** The cart classifier answers "no": the command is logged as a failure
    and nothing is navigated to. *)
Lemma handleVoiceCommand_unhandled_frame_witness :
  let w := initialWorld "/products/gym" noUserInfo false in
  let run :=
    handleVoiceCommand (rt := ascii_runtime) exampleProducts exampleFilterOptions
      (classified "cart" "no") O "what is in my basket" w in
  external (world_of run) = external w
  /\ exists message, head (actionLog (world_of run)) = Some (message, false).
Proof.
  intros w run.
  apply (handleVoiceCommand_unhandled_frame (rt := ascii_runtime) exampleProducts
           exampleFilterOptions (classified "cart" "no") O "what is in my basket" w).
  - discriminate.
  - discriminate.
Defined.
